(** * fb_chat: the in-memory model of a Facebook message export

    A shallow embedding of [src/fb_chat.py] (classes [Chat], [Thread],
    [Message]) together with the properties of its ordering, filtering and
    lookup operations.

    Conventions of the embedding
    - Python [int] is [Z]; Python [str] is [string]; a Python list is a
      [list]; a [dict] keyed by strings is a [gmap string _].
    - A naive [datetime.datetime] is the number of microseconds elapsed since
      0001-01-01T00:00:00, an integer in [0, MAXORDINAL * US_PER_DAY); the
      comparison operators of [datetime] are then the ones of [Z].
    - A string is a sequence of 8-bit characters; [str.lower] acts on the
      letters A to Z.
    - [sorted] is a stable insertion sort that consults [<] only.
    - An operation that can raise returns a [result]; a method that mutates
      [self] returns the new state of [self]; [Message] objects held by a
      [Thread] are references into an object store, since
      [_renumber_messages] writes through them. *)

From Stdlib Require Import ZArith Ascii String.
From stdpp Require Import base gmap sets list strings sorting.

Local Open Scope Z_scope.

(** ** Exceptions and results *)

Inductive exn : Type :=
  | KeyError
  | IndexError
  | ValueError
  | TypeError
  | OverflowError.

Inductive result (A : Type) : Type :=
  | Ok (a : A)
  | Raise (e : exn).
Arguments Ok {A} a.
Arguments Raise {A} e.

(** Sequencing: an exception raised by the first computation propagates. *)
#[global] Instance result_bind : MBind result := λ A B k r,
  match r with
  | Ok a => k a
  | Raise e => Raise e
  end.

(** ** [datetime.datetime] and [datetime.timedelta] *)

Module datetime.

Definition datetime : Type := Z.
Definition timedelta : Type := Z.

Definition US_PER_SECOND : Z := 1000000.
Definition US_PER_DAY : Z := 86400 * US_PER_SECOND.
(** [date.max.toordinal()], the ordinal of 9999-12-31. *)
Definition MAXORDINAL : Z := 3652059.

Definition in_range (t : Z) : bool :=
  (0 <=? t) && (t <? MAXORDINAL * US_PER_DAY).

(** [timedelta(days)] *)
Definition timedelta_days (days : Z) : timedelta := days * US_PER_DAY.

(** [d + delta]: raises [OverflowError] outside year 1..9999. *)
Definition add (d : datetime) (delta : timedelta) : result datetime :=
  if in_range (d + delta) then Ok (d + delta) else Raise OverflowError.

Definition is_leap (year : Z) : bool :=
  (year mod 4 =? 0) && (negb (year mod 100 =? 0) || (year mod 400 =? 0)).

Definition days_before_year (year : Z) : Z :=
  let y := year - 1 in
  y * 365 + y / 4 - y / 100 + y / 400.

Definition days_in_month (year month : Z) : Z :=
  if (month =? 2) && is_leap year then 29
  else nth (Z.to_nat month) [0; 31; 28; 31; 30; 31; 30; 31; 31; 30; 31; 30; 31] 0.

Definition days_before_month (year month : Z) : Z :=
  nth (Z.to_nat month) [0; 0; 31; 59; 90; 120; 151; 181; 212; 243; 273; 304; 334] 0
  + (if (2 <? month) && is_leap year then 1 else 0).

Definition ymd2ord (year month day : Z) : Z :=
  days_before_year year + days_before_month year month + day.

Definition between (lo x hi : Z) : bool := (lo <=? x) && (x <=? hi).

(** An integer that converts to a C [int]. *)
Definition fits_c_int (x : Z) : bool := between (- 2147483648) x 2147483647.

(** [datetime.datetime(year, month, day, hour, minute, second, microsecond)]:
    raises [OverflowError] when a field does not convert to a C [int], and
    [ValueError] when a field is out of range. *)
Definition make (year month day hour minute second microsecond : Z)
  : result datetime :=
  if negb (forallb fits_c_int [year; month; day; hour; minute; second; microsecond])
  then Raise OverflowError
  else
  if between 1 year 9999 && between 1 month 12
     && between 1 day (days_in_month year month)
     && between 0 hour 23 && between 0 minute 59 && between 0 second 59
     && between 0 microsecond 999999
  then Ok ((ymd2ord year month day - 1) * US_PER_DAY
           + ((hour * 60 + minute) * 60 + second) * US_PER_SECOND
           + microsecond)
  else Raise ValueError.

(** [datetime.datetime( *args )] on a tuple of integers: year, month and day
    are required, and fewer than three or more than eight arguments are a
    [TypeError]. An eighth argument stands for [tzinfo]: the seven fields
    before it are checked first, and then the integer is refused with a
    [TypeError]. *)
Definition of_tuple (args : list Z) : result datetime :=
  match args with
  | [y; m; d] => make y m d 0 0 0 0
  | [y; m; d; hh] => make y m d hh 0 0 0
  | [y; m; d; hh; mm] => make y m d hh mm 0 0
  | [y; m; d; hh; mm; ss] => make y m d hh mm ss 0
  | [y; m; d; hh; mm; ss; us] => make y m d hh mm ss us
  | [y; m; d; hh; mm; ss; us; _] =>
      match make y m d hh mm ss us with
      | Ok _ => Raise TypeError
      | Raise e => Raise e
      end
  | _ => Raise TypeError
  end.

End datetime.

(** A date argument of the query methods: a [datetime.datetime] object or a
    tuple [(YYYY, MM, DD[, HH, MM])]. *)
Inductive date_arg : Type :=
  | Native (d : datetime.datetime)
  | Tuple (fields : list Z).

(** ** Strings: [in], [str.lower], [str.replace], [str.count], [str.join] *)

Module pystr.

Local Open Scope string_scope.

(** The one-character string holding a double quote. *)
Definition dquote : string := String "034"%char EmptyString.

(** [p] is a prefix of [s] ([s.startswith(p)]). *)
Fixpoint startswith (p s : string) : bool :=
  match p, s with
  | EmptyString, _ => true
  | String a p', String b s' => if Ascii.eqb a b then startswith p' s' else false
  | String _ _, EmptyString => false
  end.

(** [sub in s] *)
Fixpoint contains (sub s : string) : bool :=
  startswith sub s
  || match s with
     | EmptyString => false
     | String _ s' => contains sub s'
     end.

Definition lower_ascii (c : ascii) : ascii :=
  let n := nat_of_ascii c in
  if (65 <=? n)%nat && (n <=? 90)%nat then ascii_of_nat (n + 32) else c.

(** [s.lower()] on the letters A to Z; every other character is left as it
    is. Python's [str.lower] also lowers capitals outside this range, where
    it can depend on the neighbouring characters and change the length of
    the string. *)
Fixpoint lower (s : string) : string :=
  match s with
  | EmptyString => EmptyString
  | String c s' => String (lower_ascii c) (lower s')
  end.

(** [s.replace(old, new)] for a non-empty [old]: occurrences are found from
    the left and do not overlap. [skip] counts the characters of the
    occurrence just replaced that are still to be passed over. *)
Fixpoint replace_from (skip : nat) (old new s : string) : string :=
  match s with
  | EmptyString => EmptyString
  | String c s' =>
      match skip with
      | S k => replace_from k old new s'
      | O =>
          if startswith old s
          then new ++ replace_from (String.length old - 1) old new s'
          else String c (replace_from O old new s')
      end
  end.

(** With an empty [old] Python inserts [new] before every character and at
    the end. *)
Fixpoint intersperse (new s : string) : string :=
  match s with
  | EmptyString => new
  | String c s' => new ++ String c (intersperse new s')
  end.

Definition replace (old new s : string) : string :=
  match old with
  | EmptyString => intersperse new s
  | String _ _ => replace_from O old new s
  end.

(** [s.count(sub)] for a non-empty [sub]: the non-overlapping occurrences
    that [replace] rewrites. *)
Fixpoint count_from (skip : nat) (sub s : string) : nat :=
  match s with
  | EmptyString => O
  | String c s' =>
      match skip with
      | S k => count_from k sub s'
      | O =>
          if startswith sub s
          then S (count_from (String.length sub - 1) sub s')
          else count_from O sub s'
      end
  end.

Definition count (sub s : string) : nat :=
  match sub with
  | EmptyString => S (String.length s)
  | String _ _ => count_from O sub s
  end.

(** [sep.join(l)] *)
Fixpoint join (sep : string) (l : list string) : string :=
  match l with
  | [] => EmptyString
  | [x] => x
  | x :: l' => x ++ sep ++ join sep l'
  end.

End pystr.

(** ** class Message *)

Module Message.

Record t : Type := mk {
  thread_name : string;
  author : string;
  date_time : datetime.datetime;
  text : string;
  _num : Z
}.

Definition _date_parse (date : date_arg) : result datetime.datetime :=
  match date with
  | Native d => Ok d
  | Tuple fields => datetime.of_tuple fields
  end.

Definition sent_by (self : t) (name : string) : bool :=
  String.eqb (author self) name.

Definition sent_before (self : t) (date : date_arg) : result bool :=
  date ← _date_parse date ;
  Ok (date_time self <? date).

Definition sent_after (self : t) (date : date_arg) : result bool :=
  date ← _date_parse date ;
  Ok (date_time self >? date).

Definition sent_between (self : t) (start : date_arg) (end_ : option date_arg)
  : result bool :=
  start ← _date_parse start ;
  end_ ← match end_ with
         | Some e => _date_parse e
         | None => datetime.add start (datetime.timedelta_days 1)
         end ;
  Ok ((start <=? date_time self) && (date_time self <=? end_)).

Definition __lt__ (self message : t) : result bool :=
  if date_time self =? date_time message then
    if Z.abs (_num self - _num message) >? 9000 then Ok false
    else Ok (_num self <? _num message)
  else sent_before self (Native (date_time message)).

Definition __gt__ (self message : t) : result bool :=
  if date_time self =? date_time message then
    if Z.abs (_num self - _num message) >? 9000 then Ok true
    else Ok (_num self >? _num message)
  else sent_after self (Native (date_time message)).

Definition __eq__ (self message : t) : bool :=
  let equal := (_num self =? _num message) && String.eqb (author self) (author message) in
  let equal := equal && (date_time self =? date_time message)
               && String.eqb (text self) (text message) in
  equal.

(** [a != b]: the class defines no [__ne__], so Python 3 negates [__eq__]. *)
Definition __ne__ (self message : t) : bool := negb (__eq__ self message).

Definition __len__ (self : t) : nat :=
  let text := pystr.replace "<|NEWLINE|>" EmptyString (text self) in
  let text := pystr.replace (pystr.dquote ++ pystr.dquote) pystr.dquote text in
  String.length text.

Definition contains (self : t) (search_string : string) (ignore_case : bool) : bool :=
  if ignore_case
  then pystr.contains (pystr.lower search_string) (pystr.lower (text self))
  else pystr.contains search_string (text self).

(** The comparison a sort sees: [a < b] evaluated to a truth value. Between
    two [Message] objects [__lt__] never raises (see [lt_returns]). *)
Definition lt (a b : t) : bool :=
  match __lt__ a b with
  | Ok r => r
  | Raise _ => false
  end.

Definition gt (a b : t) : bool :=
  match __gt__ a b with
  | Ok r => r
  | Raise _ => false
  end.

End Message.

(** ** [sorted]

    Python's sort is stable and consults nothing but [<]. It is modelled by
    straight insertion: the elements are taken from left to right and each
    one moves left past the elements it is less than. A list in which no
    element is less than its predecessor comes back unchanged, as from
    Python's detection of an ascending run; and on a list whose elements [<]
    orders consistently every stable sort returns the same list. *)

Section sorted.
Context {A : Type} (lt : A → A → bool).

(** [x] enters the sorted elements [racc], which are held last element
    first. *)
Fixpoint insort (x : A) (racc : list A) : list A :=
  match racc with
  | [] => [x]
  | y :: racc' => if lt x y then y :: insort x racc' else x :: racc
  end.

Definition sorted (l : list A) : list A :=
  reverse (foldl (λ racc x, insort x racc) [] l).

End sorted.

(** [sorted(l, key=key, reverse=True)]: the list is reversed, sorted stably
    in ascending order of the key, and reversed again, which keeps elements
    with equal keys in their original order. *)
Definition sorted_key_reverse {A : Type} (key : A → nat) (l : list A) : list A :=
  reverse (sorted (λ a b, (key a <? key b)%nat) (reverse l)).

(** ** The object store

    A [Message] object is a reference; the store gives its current fields. *)

Definition ref : Type := nat.
Abbreviation heap := (gmap nat Message.t).

(** The object [m] after the assignment [m._num = i]. *)
Definition with_num (m : Message.t) (i : Z) : Message.t :=
  {| Message.thread_name := Message.thread_name m;
     Message.author := Message.author m;
     Message.date_time := Message.date_time m;
     Message.text := Message.text m;
     Message._num := i |}.

(** [a < b] for two stored [Message] objects. *)
Definition obj_lt (h : heap) (a b : ref) : bool :=
  match h !! a, h !! b with
  | Some ma, Some mb => Message.lt ma mb
  | _, _ => false
  end.

(** [l[i]] on a Python list: a negative index counts from the end, an index
    out of range raises [IndexError]. *)
Definition list_getitem {A : Type} (l : list A) (i : Z) : result A :=
  let n := Z.of_nat (length l) in
  let j := if i <? 0 then i + n else i in
  if (0 <=? j) && (j <? n) then
    match l !! Z.to_nat j with
    | Some x => Ok x
    | None => Raise IndexError
    end
  else Raise IndexError.

(** ** Method calls through references, and list comprehensions *)

(** [f(message)] on a stored object, for a method [f] that answers a truth
    value. A reference held by a thread is to a stored object; the second
    case only makes the function total. *)
Definition deref_bool (h : heap) (f : Message.t → bool) (message : ref) : bool :=
  match h !! message with
  | Some m => f m
  | None => false
  end.

(** The same for a method that can raise. *)
Definition deref_result (h : heap) (f : Message.t → result bool) (message : ref)
  : result bool :=
  match h !! message with
  | Some m => f m
  | None => Ok false
  end.

(** [[x for x in l if p(x)]]: [p] is called on the elements in turn and the
    first exception ends the evaluation. *)
Fixpoint comprehension_if {A : Type} (p : A → result bool) (l : list A)
  : result (list A) :=
  match l with
  | [] => Ok []
  | x :: l' =>
      p x ≫= λ b : bool,
      comprehension_if p l' ≫= λ rest : list A,
      Ok (if b then x :: rest else rest)
  end.

(** [[y for x in l for y in f(x)]] *)
Fixpoint comprehension_for {A B : Type} (f : A → result (list B)) (l : list A)
  : result (list B) :=
  match l with
  | [] => Ok []
  | x :: l' =>
      f x ≫= λ ys : list B,
      comprehension_for f l' ≫= λ rest : list B,
      Ok (ys ++ rest)
  end.

(** ** class Thread *)

Module Thread.

Record t : Type := mk {
  people : list string;
  people_str : string;
  messages : list ref
}.

Definition __init__ (h : heap) (people : list string) (messages : list ref) : t :=
  {| people := people;
     people_str := pystr.join ", " people;
     messages := sorted (obj_lt h) messages |}.

Definition __len__ (self : t) : nat := length (messages self).

Definition _add_messages (h : heap) (self : t) (new_messages : list ref) : t :=
  let extended := messages self ++ new_messages in
  {| people := people self;
     people_str := people_str self;
     messages := sorted (obj_lt h) extended |}.

(** [message._num = i] *)
Definition set_num (message : ref) (i : Z) (h : heap) : heap :=
  alter (λ m, with_num m i) message h.

(** The loop of [_renumber_messages], entered with counter [i]. *)
Fixpoint renumber_loop (i : Z) (messages : list ref) (h : heap) : heap :=
  match messages with
  | [] => h
  | message :: rest => renumber_loop (i + 1) rest (set_num message i h)
  end.

Definition _renumber_messages (self : t) (h : heap) : heap :=
  renumber_loop 1 (messages self) h.

(** [self.messages[key]] for an integer key. *)
Definition __getitem__ (self : t) (key : Z) : result ref :=
  list_getitem (messages self) key.

(** [by]: the name is a keyword here. *)
Definition by_ (h : heap) (self : t) (name : string) : list ref :=
  filter (λ message, deref_bool h (λ m, Message.sent_by m name) message = true)
    (messages self).

Definition sent_before (h : heap) (self : t) (date : date_arg) : result (list ref) :=
  comprehension_if (deref_result h (λ m, Message.sent_before m date)) (messages self).

Definition sent_after (h : heap) (self : t) (date : date_arg) : result (list ref) :=
  comprehension_if (deref_result h (λ m, Message.sent_after m date)) (messages self).

Definition sent_between (h : heap) (self : t) (start : date_arg) (end_ : option date_arg)
  : result (list ref) :=
  comprehension_if (deref_result h (λ m, Message.sent_between m start end_))
    (messages self).

Definition search (h : heap) (self : t) (string : string) (ignore_case : bool)
  : list ref :=
  sorted (obj_lt h)
    (filter (λ message,
               deref_bool h (λ m, Message.contains m string ignore_case) message = true)
       (messages self)).

End Thread.

(** ** class Chat *)

(** The values a caller can pass as the key of [Chat.__getitem__]. *)
#[local] Unset Elimination Schemes.
Inductive pyval : Type :=
  | PInt (i : Z)
  | PStr (s : string)
  | PBool (b : bool)
  | PFloat (mantissa exponent : Z)
  | PNone
  | PTuple (items : list pyval).
#[local] Set Elimination Schemes.

Module Chat.

Record t : Type := mk {
  threads : list Thread.t;
  _thread_dict : gmap string Thread.t;
  _total_messages : nat;
  _myname : string;
  _all_people : gset string
}.

(** [sorted([message for thread in threads for message in thread.messages])] *)
Definition all_messages_of (h : heap) (threads : list Thread.t) : list ref :=
  sorted (obj_lt h) (concat (Thread.messages <$> threads)).

Definition all_messages (h : heap) (self : t) : list ref :=
  all_messages_of h (threads self).

(** [{", ".join(thread.people): thread for thread in threads}]: a later
    thread replaces an earlier one with the same label. *)
Definition thread_dict_of (threads : list Thread.t) : gmap string Thread.t :=
  foldl (λ d thread, <[pystr.join ", " (Thread.people thread) := thread]> d) ∅ threads.

Definition __init__ (h : heap) (myname : string) (threads : list Thread.t) : t :=
  let threads := sorted_key_reverse Thread.__len__ threads in
  {| threads := threads;
     _thread_dict := thread_dict_of threads;
     _total_messages := length (all_messages_of h threads);
     _myname := myname;
     _all_people :=
       foldl (λ s thread, s ∪ list_to_set (Thread.people thread)) {[myname]} threads |}.

(** The result is [Some thread], or [None] for Python's [None] when the
    method falls off its end. *)
Definition __getitem__ (self : t) (key : pyval) : result (option Thread.t) :=
  match key with
  | PInt i => thread ← list_getitem (threads self) i; Ok (Some thread)
  | PStr s =>
      match _thread_dict self !! s with
      | Some thread => Ok (Some thread)
      | None => Raise KeyError
      end
  | _ => Ok None
  end.

Definition __len__ (self : t) : nat := length (threads self).

Definition _date_parse (date : date_arg) : result datetime.datetime :=
  match date with
  | Native d => Ok d
  | Tuple fields => datetime.of_tuple fields
  end.

Definition all_from (h : heap) (self : t) (name : string) : list ref :=
  sorted (obj_lt h) (concat ((λ thread, Thread.by_ h thread name) <$> threads self)).

Definition sent_before (h : heap) (self : t) (date : date_arg) : result (list ref) :=
  found ← comprehension_for (λ thread, Thread.sent_before h thread date) (threads self);
  Ok (sorted (obj_lt h) found).

Definition sent_after (h : heap) (self : t) (date : date_arg) : result (list ref) :=
  found ← comprehension_for (λ thread, Thread.sent_after h thread date) (threads self);
  Ok (sorted (obj_lt h) found).

Definition sent_between (h : heap) (self : t) (start : date_arg) (end_ : option date_arg)
  : result (list ref) :=
  found ← comprehension_for (λ thread, Thread.sent_between h thread start end_)
             (threads self);
  Ok (sorted (obj_lt h) found).

Definition search (h : heap) (self : t) (string : string) (ignore_case : bool)
  : list ref :=
  sorted (obj_lt h)
    (concat ((λ thread, Thread.search h thread string ignore_case) <$> threads self)).

Definition _recount_messages (h : heap) (self : t) : t :=
  {| threads := threads self;
     _thread_dict := _thread_dict self;
     _total_messages := length (all_messages h self);
     _myname := _myname self;
     _all_people := _all_people self |}.

End Chat.

(** * parser.py: the first reader of the export

    The classes [FbChat], [Thread] and [Message] of [src/parser.py] are built
    from the parsed document; what is embedded here is their state once
    built and their query methods. The classes define [__getitem__] and no
    [__iter__], so a [for] loop over them asks for the items at 0, 1, 2, ...
    until [IndexError]. *)

(** The outcome of a loop that is given [fuel] rounds: [None] when the fuel
    runs out. *)
Definition outcome (A : Type) : Type := option (result A).

Definition outcome_bind {A B : Type} (o : outcome A) (k : A → outcome B) : outcome B :=
  match o with
  | None => None
  | Some (Raise e) => Some (Raise e)
  | Some (Ok a) => k a
  end.

(** [[x for x in self]] by the sequence protocol. *)
Fixpoint iterate {A : Type} (fuel : nat) (getitem : Z → result A) (i : Z)
  : outcome (list A) :=
  match fuel with
  | O => None
  | S fuel' =>
      match getitem i with
      | Ok x => outcome_bind (iterate fuel' getitem (i + 1)) (λ rest, Some (Ok (x :: rest)))
      | Raise IndexError => Some (Ok [])
      | Raise e => Some (Raise e)
      end
  end.

(** [[y for x in l for y in f(x)]] for an [f] that loops itself. *)
Fixpoint collect {A B : Type} (f : A → outcome (list B)) (l : list A)
  : outcome (list B) :=
  match l with
  | [] => Some (Ok [])
  | x :: l' =>
      outcome_bind (f x) (λ ys,
      outcome_bind (collect f l') (λ rest, Some (Ok (ys ++ rest))))
  end.

Module parser.

Module Message.

Record t : Type := mk {
  text : string;
  sender : string;
  date_time : datetime.datetime
}.

End Message.

Module Thread.

Record t : Type := mk {
  people : gset string;
  messages : list Message.t
}.

Definition __getitem__ (self : t) (key : Z) : result Message.t :=
  list_getitem (messages self) key.

Definition __len__ (self : t) : nat := length (messages self).

(** [by]: the name is a keyword here. *)
Definition by_ (fuel : nat) (self : t) (name : string) : outcome (list Message.t) :=
  outcome_bind (iterate fuel (__getitem__ self) 0) (λ xs,
  Some (Ok (filter (λ x, Message.sender x = name) xs))).

Definition sentBefore (fuel : nat) (self : t) (date : datetime.datetime)
  : outcome (list Message.t) :=
  outcome_bind (iterate fuel (__getitem__ self) 0) (λ xs,
  Some (Ok (filter (λ x, Message.date_time x < date) xs))).

Definition sentAfter (fuel : nat) (self : t) (date : datetime.datetime)
  : outcome (list Message.t) :=
  outcome_bind (iterate fuel (__getitem__ self) 0) (λ xs,
  Some (Ok (filter (λ x, Message.date_time x > date) xs))).

End Thread.

Module FbChat.

Record t : Type := mk {
  threads : list Thread.t
}.

Definition __getitem__ (self : t) (key : Z) : result Thread.t :=
  list_getitem (threads self) key.

Definition __len__ (self : t) : nat := length (threads self).

Definition by_ (fuel : nat) (self : t) (name : string) : outcome (list Message.t) :=
  outcome_bind (iterate fuel (__getitem__ self) 0) (λ ts,
  collect (λ t, if decide (name ∈ Thread.people t)
                then Thread.by_ fuel t name
                else Some (Ok [])) ts).

Definition sentBefore (fuel : nat) (self : t) (date : datetime.datetime)
  : outcome (list Message.t) :=
  outcome_bind (iterate fuel (__getitem__ self) 0) (λ ts,
  collect (λ x, Thread.sentBefore fuel x date) ts).

Definition sentAfter (fuel : nat) (self : t) (date : datetime.datetime)
  : outcome (list Message.t) :=
  outcome_bind (iterate fuel (__getitem__ self) 0) (λ ts,
  collect (λ x, Thread.sentAfter fuel x date) ts).

End FbChat.

End parser.

(** * Vocabulary of the statements *)

Definition exactly_one_of3 (p q r : bool) : Prop :=
  (p = true ∧ q = false ∧ r = false)
  ∨ (p = false ∧ q = true ∧ r = false)
  ∨ (p = false ∧ q = false ∧ r = true).

Definition exactly_one_of2 (p q : bool) : Prop :=
  (p = true ∧ q = false) ∨ (p = false ∧ q = true).

(** Two messages are in comparable sequence-number range when they carry
    different timestamps or their sequence numbers are at most 9000 apart. *)
Definition comparable (a b : Message.t) : Prop :=
  Message.date_time a = Message.date_time b →
  Z.abs (Message._num a - Message._num b) ≤ 9000.

(** A timestamp and a sequence number identify the message. *)
Definition same_slot_same_message (a b : Message.t) : Prop :=
  Message.date_time a = Message.date_time b →
  Message._num a = Message._num b →
  Message.author a = Message.author b ∧ Message.text a = Message.text b.

(** [sub] occurs in [s] as a contiguous run of characters. *)
Definition substring_of (sub s : string) : Prop :=
  ∃ pre post : string, s = (pre ++ sub ++ post)%string.

(** No element of [l] is less than an element placed before it. *)
Definition ascending {A : Type} (lt : A → A → bool) (l : list A) : Prop :=
  StronglySorted (λ a b, lt b a = false) l.

(** Keys never increase along [l]. *)
Definition descending_by {A : Type} (key : A → nat) (l : list A) : Prop :=
  StronglySorted (λ a b, (key b ≤ key a)%nat) l.

(** The elements of [l] whose key is [k], in the order of [l]. *)
Definition with_key {A : Type} (key : A → nat) (k : nat) (l : list A) : list A :=
  filter (λ a, key a = k) l.

(** Every reference of [refs] is to an object of the store. *)
Definition stored (h : heap) (refs : list ref) : Prop :=
  ∀ r : ref, r ∈ refs → is_Some (h !! r).

(** Any two stored messages among [refs] are in comparable sequence-number
    range. *)
Definition pairwise_comparable (h : heap) (refs : list ref) : Prop :=
  ∀ (r1 r2 : ref) (m1 m2 : Message.t),
    r1 ∈ refs → r2 ∈ refs → h !! r1 = Some m1 → h !! r2 = Some m2 →
    comparable m1 m2.

(** The label under which [Chat] indexes a thread. *)
Definition label (thread : Thread.t) : string :=
  pystr.join ", " (Thread.people thread).

(** The references of [refs] whose stored message satisfies [q], in the order
    of [refs]. *)
Definition where_ (h : heap) (q : Message.t → bool) (refs : list ref) : list ref :=
  filter (λ r, deref_bool h q r = true) refs.

(** The messages of the threads, thread after thread. *)
Definition all_refs (threads : list Thread.t) : list ref :=
  concat (Thread.messages <$> threads).

(** The position a Python index denotes in a list of length [n]. *)
Definition position (n : nat) (key : Z) : nat :=
  Z.to_nat (if key <? 0 then key + Z.of_nat n else key).

(** Exactly one of three properties holds of [x]. *)
Definition one_of_three {A : Type} (P Q R : A → Prop) (x : A) : Prop :=
  (P x ∧ ¬ Q x ∧ ¬ R x) ∨ (¬ P x ∧ Q x ∧ ¬ R x) ∨ (¬ P x ∧ ¬ Q x ∧ R x).

(** A message sent before, at, after the date [d]. *)
Definition earlier_than (d : datetime.datetime) (m : Message.t) : bool :=
  bool_decide (Message.date_time m < d).

Definition sent_at (d : datetime.datetime) (m : Message.t) : bool :=
  bool_decide (Message.date_time m = d).

Definition later_than (d : datetime.datetime) (m : Message.t) : bool :=
  bool_decide (d < Message.date_time m).

(** A message sent from [s] to [e], both included. *)
Definition sent_within (s e : datetime.datetime) (m : Message.t) : bool :=
  bool_decide (s ≤ Message.date_time m ≤ e).

(** A message written by [name]. *)
Definition written_by (name : string) (m : Message.t) : bool :=
  bool_decide (Message.author m = name).

(** A message in which [s] is found. *)
Definition mentions (s : string) (ignore_case : bool) (m : Message.t) : bool :=
  Message.contains m s ignore_case.

(** The messages of the threads of a [parser.FbChat], thread after thread. *)
Definition parser_messages (c : parser.FbChat.t) : list parser.Message.t :=
  concat (parser.Thread.messages <$> parser.FbChat.threads c).

(** Fuel for every loop over the chat and over its threads. *)
Definition enough_fuel (fuel : nat) (c : parser.FbChat.t) : Prop :=
  (length (parser.FbChat.threads c) < fuel)%nat
  ∧ ∀ t, t ∈ parser.FbChat.threads c → (length (parser.Thread.messages t) < fuel)%nat.

(** * Fixtures *)

Module fixtures.

(** 2014-03-01 12:00 *)
Definition noon : datetime.datetime :=
  (datetime.ymd2ord 2014 3 1 - 1) * datetime.US_PER_DAY
  + 12 * 3600 * datetime.US_PER_SECOND.

Definition message_at (d : datetime.datetime) (num : Z) (text : string) : Message.t :=
  {| Message.thread_name := "Ann, Bob";
     Message.author := "Ann";
     Message.date_time := d;
     Message.text := text;
     Message._num := num |}.

(** Messages of one minute, numbered on both sides of the 9000 gap. *)
Definition m1 : Message.t := message_at noon 1 "one".
Definition m2 : Message.t := message_at noon 2 "two".
Definition m3 : Message.t := message_at noon 3 "three".
Definition m5000 : Message.t := message_at noon 5000 "five thousand".
Definition m10000 : Message.t := message_at noon 10000 "ten thousand".
(** Same minute and number as [m1], another text. *)
Definition m1_other : Message.t := message_at noon 1 "uno".

(** The stored text: He said QQhiQQ<|NEWLINE|>bye, Q standing for the
    double quote character. *)
Definition escaped_text : string :=
  ("He said " ++ pystr.dquote ++ pystr.dquote ++ "hi" ++ pystr.dquote ++ pystr.dquote
   ++ "<|NEWLINE|>bye")%string.

(** The original text: He said QhiQ, a line feed, bye. *)
Definition original_text : string :=
  ("He said " ++ pystr.dquote ++ "hi" ++ pystr.dquote
   ++ String "010"%char "bye")%string.

(** Three objects of one minute: 5000, 10000 and 1. *)
Definition gap_heap : heap :=
  list_to_map [(0%nat, m5000); (1%nat, m10000); (2%nat, m1)].

(** Nineteen objects, one per minute, numbered from 1. *)
Definition minutes_heap : heap :=
  list_to_map
    ((λ i : nat,
        (i, message_at (noon + Z.of_nat i * 60 * datetime.US_PER_SECOND)
              (Z.of_nat i + 1) "text"))
     <$> seq 0 19).

(** Threads of 5, 3, 3 and 8 messages. *)
Definition thread5 : Thread.t := Thread.__init__ minutes_heap ["Ann"; "Bob"] (seq 0 5).
Definition thread3 : Thread.t := Thread.__init__ minutes_heap ["Ann"; "Cid"] (seq 5 3).
Definition thread3' : Thread.t := Thread.__init__ minutes_heap ["Ann"; "Dee"] (seq 8 3).
Definition thread8 : Thread.t := Thread.__init__ minutes_heap ["Ann"; "Eve"] (seq 11 8).

Definition chat : Chat.t :=
  Chat.__init__ minutes_heap "Ann" [thread5; thread3; thread3'; thread8].

(** The thread of 5000 and 10000, to which 1 is added. *)
Definition gap_thread : Thread.t :=
  Thread._add_messages gap_heap
    (Thread.__init__ gap_heap ["Ann"; "Bob"] [0; 1]%nat) [2%nat].

(** One object, added to the thread that already holds it. *)
Definition single_heap : heap := {[ 0%nat := m1 ]}.
Definition doubled_thread : Thread.t :=
  Thread._add_messages single_heap
    (Thread.__init__ single_heap ["Ann"; "Bob"] [0%nat]) [0%nat].

(** A thread built out of order and then extended. *)
Definition late_thread : Thread.t :=
  Thread.__init__ minutes_heap ["Ann"; "Bob"] [3; 1]%nat.

(** A chat of two threads, of 3 and 2 messages. *)
Definition duo : Chat.t :=
  Chat.__init__ minutes_heap "Ann" [late_thread; thread3].

(** A first-reader chat: Ann writes in a thread that lists her and in one
    that does not. *)
Definition parsed : parser.FbChat.t :=
  parser.FbChat.mk
    [ parser.Thread.mk {[ "Ann"; "Bob" ]}
        [ parser.Message.mk "hi" "Ann" noon;
          parser.Message.mk "hello" "Bob" (noon + 60 * datetime.US_PER_SECOND) ];
      parser.Thread.mk {[ "Bob"; "Cid" ]}
        [ parser.Message.mk "lost" "Ann" (noon - 60 * datetime.US_PER_SECOND) ] ].

End fixtures.

(** * Properties *)

(** ** Message: comparison operators *)

Section message_order.
Import Message.
Implicit Types a b c : Message.t.

(** Between two [Message] objects the operators always return. *)
Lemma lt_returns a b : __lt__ a b = Ok (lt a b).
Proof.
  unfold lt, __lt__, sent_before; simpl.
  destruct (date_time a =? date_time b); [|reflexivity].
  destruct (Z.abs (_num a - _num b) >? 9000); reflexivity.
Qed.

Lemma gt_returns a b : __gt__ a b = Ok (gt a b).
Proof.
  unfold gt, __gt__, sent_after; simpl.
  destruct (date_time a =? date_time b); [|reflexivity].
  destruct (Z.abs (_num a - _num b) >? 9000); reflexivity.
Qed.

Lemma lt_unfold a b :
  lt a b =
    if date_time a =? date_time b then
      if Z.abs (_num a - _num b) >? 9000 then false else _num a <? _num b
    else date_time a <? date_time b.
Proof.
  unfold lt, __lt__, sent_before; simpl.
  destruct (date_time a =? date_time b); [|reflexivity].
  destruct (Z.abs (_num a - _num b) >? 9000); reflexivity.
Qed.

Lemma gt_unfold a b :
  gt a b =
    if date_time a =? date_time b then
      if Z.abs (_num a - _num b) >? 9000 then true else _num a >? _num b
    else date_time a >? date_time b.
Proof.
  unfold gt, __gt__, sent_after; simpl.
  destruct (date_time a =? date_time b); [|reflexivity].
  destruct (Z.abs (_num a - _num b) >? 9000); reflexivity.
Qed.

Lemma eq_true_iff a b :
  __eq__ a b = true ↔
    _num a = _num b ∧ author a = author b
    ∧ date_time a = date_time b ∧ text a = text b.
Proof.
  unfold __eq__.
  rewrite !andb_true_iff, !Z.eqb_eq, !String.eqb_eq. tauto.
Qed.

Lemma lt_true_iff a b :
  comparable a b →
  lt a b = true ↔
    date_time a < date_time b
    ∨ (date_time a = date_time b ∧ _num a < _num b).
Proof.
  unfold comparable. intros Hc. rewrite lt_unfold.
  destruct (Z.eqb_spec (date_time a) (date_time b)) as [He|Hne].
  - specialize (Hc He).
    destruct (Z.gtb_spec (Z.abs (_num a - _num b)) 9000); [lia|].
    rewrite Z.ltb_lt. lia.
  - rewrite Z.ltb_lt. lia.
Qed.

Lemma gt_true_iff a b :
  comparable a b →
  gt a b = true ↔
    date_time b < date_time a
    ∨ (date_time a = date_time b ∧ _num b < _num a).
Proof.
  unfold comparable. intros Hc. rewrite gt_unfold.
  destruct (Z.eqb_spec (date_time a) (date_time b)) as [He|Hne].
  - specialize (Hc He).
    destruct (Z.gtb_spec (Z.abs (_num a - _num b)) 9000); [lia|].
    rewrite Z.gtb_ltb, Z.ltb_lt. lia.
  - rewrite Z.gtb_ltb, Z.ltb_lt. lia.
Qed.

(** [<] never holds in both directions, whatever the sequence numbers. *)
Lemma lt_asym a b : lt a b = true → lt b a = false.
Proof.
  rewrite !lt_unfold.
  destruct (Z.eqb_spec (date_time a) (date_time b)) as [He|Hne].
  - rewrite He, Z.eqb_refl.
    replace (_num b - _num a) with (- (_num a - _num b)) by lia.
    rewrite Z.abs_opp.
    destruct (Z.abs (_num a - _num b) >? 9000); [done|].
    rewrite Z.ltb_lt. intros. apply Z.ltb_ge. lia.
  - destruct (Z.eqb_spec (date_time b) (date_time a)); [congruence|].
    rewrite Z.ltb_lt. intros. apply Z.ltb_ge. lia.
Qed.

Lemma lt_trans_comparable a b c :
  comparable a c → lt a b = true → lt b c = true → lt a c = true.
Proof.
  intros Hac Hab Hbc. apply lt_true_iff; [done|].
  rewrite lt_unfold in Hab, Hbc.
  destruct (Z.eqb_spec (date_time a) (date_time b));
    destruct (Z.eqb_spec (date_time b) (date_time c));
    repeat match goal with
      | H : context [if ?x >? ?y then _ else _] |- _ => destruct (x >? y); [done|]
      end;
    rewrite ?Z.ltb_lt in *; lia.
Qed.

Lemma lt_negtrans_comparable a b c :
  comparable a b → comparable b c → comparable a c →
  lt a b = false → lt b c = false → lt a c = false.
Proof.
  intros Hab Hbc Hac.
  pose proof (lt_true_iff a b Hab) as H1.
  pose proof (lt_true_iff b c Hbc) as H2.
  pose proof (lt_true_iff a c Hac) as H3.
  destruct (lt a b), (lt b c), (lt a c); try done.
  intros _ _. exfalso.
  assert (¬ (date_time a < date_time b
             ∨ date_time a = date_time b ∧ _num a < _num b)) by (rewrite <- H1; done).
  assert (¬ (date_time b < date_time c
             ∨ date_time b = date_time c ∧ _num b < _num c)) by (rewrite <- H2; done).
  assert (date_time a < date_time c
          ∨ date_time a = date_time c ∧ _num a < _num c) by (by apply H3).
  lia.
Qed.

End message_order.

(** C1 (as amended). Where a timestamp and a sequence number identify the
    message, the operators return and exactly one of [a < b], [a == b],
    [a > b] holds, also of two messages of one timestamp whose sequence
    numbers are more than 9000 apart; and [a != b] implies that exactly one of
    [a < b], [a > b] holds. [<] is transitive on messages [a], [b], [c] in
    comparable sequence-number range. *)
Theorem message_order_total_when_comparable (a b c : Message.t) :
  same_slot_same_message a b →
  Message.__lt__ a b = Ok (Message.lt a b)
  ∧ Message.__gt__ a b = Ok (Message.gt a b)
  ∧ exactly_one_of3 (Message.lt a b) (Message.__eq__ a b) (Message.gt a b)
  ∧ (Message.__ne__ a b = true →
     exactly_one_of2 (Message.lt a b) (Message.gt a b))
  ∧ (comparable a b → comparable b c → comparable a c →
     Message.lt a b = true → Message.lt b c = true → Message.lt a c = true).
Proof.
  intros Hslot.
  split; [apply lt_returns|]. split; [apply gt_returns|].
  assert (Hcases :
    (Message.lt a b = true ∧ Message.__eq__ a b = false ∧ Message.gt a b = false)
    ∨ (Message.lt a b = false ∧ Message.__eq__ a b = true ∧ Message.gt a b = false)
    ∨ (Message.lt a b = false ∧ Message.__eq__ a b = false ∧ Message.gt a b = true)).
  { pose proof (eq_true_iff a b) as Heq.
    unfold same_slot_same_message in Hslot.
    rewrite lt_unfold, gt_unfold.
    destruct (Z.eqb_spec (Message.date_time a) (Message.date_time b)) as [Hd|Hd].
    - destruct (Z.gtb_spec (Z.abs (Message._num a - Message._num b)) 9000) as [Hgap|Hgap].
      + right. right. split_and!; [done| |done].
        apply not_true_is_false. rewrite Heq. intros (Hn & _). lia.
      + rewrite Z.gtb_ltb.
        destruct (Z.lt_trichotomy (Message._num a) (Message._num b)) as [Hn|[Hn|Hn]].
        * left. split_and!; [by apply Z.ltb_lt| |apply Z.ltb_ge; lia].
          apply not_true_is_false. rewrite Heq. intros (? & _). lia.
        * right. left. destruct (Hslot Hd Hn) as [Ha Ht].
          split_and!; [apply Z.ltb_ge; lia|by apply Heq|apply Z.ltb_ge; lia].
        * right. right. split_and!; [apply Z.ltb_ge; lia| |by apply Z.ltb_lt].
          apply not_true_is_false. rewrite Heq. intros (? & _). lia.
    - rewrite Z.gtb_ltb.
      assert (He : Message.__eq__ a b = false)
        by (apply not_true_is_false; rewrite Heq; intros (_ & _ & ? & _); done).
      destruct (Z.lt_trichotomy (Message.date_time a) (Message.date_time b))
        as [Hn|[Hn|Hn]]; [|done|].
      + left. split_and!; [by apply Z.ltb_lt|done|apply Z.ltb_ge; lia].
      + right. right. split_and!; [apply Z.ltb_ge; lia|done|by apply Z.ltb_lt]. }
  split_and!.
  - exact Hcases.
  - unfold Message.__ne__, exactly_one_of2.
    destruct Hcases as [(-> & -> & ->)|[(-> & -> & ->)|(-> & -> & ->)]];
      simpl; intros Hne; auto.
  - intros _ _ Hac. by apply lt_trans_comparable.
Qed.

Lemma message_order_total_when_comparable_witness :
  exactly_one_of3 (Message.lt fixtures.m1 fixtures.m10000)
    (Message.__eq__ fixtures.m1 fixtures.m10000)
    (Message.gt fixtures.m1 fixtures.m10000)
  ∧ Message.lt fixtures.m1 fixtures.m3 = true.
Proof.
  assert (Hgap : same_slot_same_message fixtures.m1 fixtures.m10000)
    by (intros _ H; vm_compute in H; discriminate).
  assert (Hs : same_slot_same_message fixtures.m1 fixtures.m2)
    by (intros _ H; vm_compute in H; discriminate).
  assert (H12 : comparable fixtures.m1 fixtures.m2)
    by (intros _; vm_compute; discriminate).
  assert (H23 : comparable fixtures.m2 fixtures.m3)
    by (intros _; vm_compute; discriminate).
  assert (H13 : comparable fixtures.m1 fixtures.m3)
    by (intros _; vm_compute; discriminate).
  split.
  - exact (proj1 (proj2 (proj2
             (message_order_total_when_comparable
                fixtures.m1 fixtures.m10000 fixtures.m1 Hgap)))).
  - destruct (message_order_total_when_comparable
                fixtures.m1 fixtures.m2 fixtures.m3 Hs)
      as (_ & _ & _ & _ & Htrans).
    apply (Htrans H12 H23 H13); reflexivity.
Defined.

(** C1 (as stated) fails. Across the 9000 gap [<] is not transitive:
    1 < 5000 and 5000 < 10000 at one timestamp, yet not 1 < 10000. And two
    different messages with one timestamp and one sequence number are
    neither [<], [==] nor [>]. *)
Lemma message_order_not_total :
  (Message.__lt__ fixtures.m1 fixtures.m5000 = Ok true
   ∧ Message.__lt__ fixtures.m5000 fixtures.m10000 = Ok true
   ∧ Message.__lt__ fixtures.m1 fixtures.m10000 = Ok false)
  ∧ (Message.__ne__ fixtures.m1 fixtures.m1_other = true
     ∧ Message.__lt__ fixtures.m1 fixtures.m1_other = Ok false
     ∧ Message.__eq__ fixtures.m1 fixtures.m1_other = false
     ∧ Message.__gt__ fixtures.m1 fixtures.m1_other = Ok false).
Proof. vm_compute. repeat split. Qed.

(** C2. In the wrap-around case [a < b] is false whichever way the sequence
    numbers compare: with 10000 against 1 at one timestamp, the larger number
    does not sort earlier. *)
Theorem lt_wraparound_not_inverted :
  Message.date_time fixtures.m10000 = Message.date_time fixtures.m1
  ∧ Z.abs (Message._num fixtures.m10000 - Message._num fixtures.m1) > 9000
  ∧ Message._num fixtures.m10000 > Message._num fixtures.m1
  ∧ Message.__lt__ fixtures.m10000 fixtures.m1 = Ok false
  ∧ Message.__lt__ fixtures.m1 fixtures.m10000 = Ok false.
Proof. vm_compute. repeat split. Qed.

(** In the wrap-around case [__lt__] answers [False] and [__gt__] answers
    [True], in both directions. *)
Lemma wraparound_constant (a b : Message.t) :
  Message.date_time a = Message.date_time b →
  Z.abs (Message._num a - Message._num b) > 9000 →
  Message.__lt__ a b = Ok false ∧ Message.__gt__ a b = Ok true.
Proof.
  intros Hd Hn. unfold Message.__lt__, Message.__gt__.
  rewrite Hd, Z.eqb_refl.
  destruct (Z.gtb_spec (Z.abs (Message._num a - Message._num b)) 9000); [done|lia].
Qed.

(** ** Message: date predicates *)

(** C4. [sent_between(start, end)] is [start <= date_time <= end] on the
    normalised dates, inclusive on both ends. With [end] omitted the upper
    end is [start] plus 24 hours, whenever that is a date: the call then
    agrees with passing that date, and a message sent exactly at [start] and
    one sent exactly 24 hours later are both included. *)
Theorem sent_between_inclusive (m : Message.t) (start : date_arg) (s : datetime.datetime) :
  Message._date_parse start = Ok s →
  (∀ (end_ : date_arg) (e : datetime.datetime),
     Message._date_parse end_ = Ok e →
     Message.sent_between m start (Some end_)
     = Ok (bool_decide (s ≤ Message.date_time m ≤ e)))
  ∧ (datetime.in_range (s + 24 * 3600 * 1000000) = true →
     Message.sent_between m start None
     = Message.sent_between m start (Some (Native (s + 24 * 3600 * 1000000)))
     ∧ Message.sent_between m start None
       = Ok (bool_decide (s ≤ Message.date_time m ≤ s + 24 * 3600 * 1000000))
     ∧ (Message.date_time m = s → Message.sent_between m start None = Ok true)
     ∧ (Message.date_time m = s + 24 * 3600 * 1000000 →
        Message.sent_between m start None = Ok true)).
Proof.
  intros Hs.
  assert (Hgen : ∀ e, Ok ((s <=? Message.date_time m) && (Message.date_time m <=? e))
                      = Ok (bool_decide (s ≤ Message.date_time m ≤ e))).
  { intros e. f_equal.
    destruct (Z.leb_spec s (Message.date_time m)), (Z.leb_spec (Message.date_time m) e);
      simpl; symmetry; first [ apply bool_decide_eq_true | apply bool_decide_eq_false ]; lia. }
  split.
  - intros end_ e He. unfold Message.sent_between.
    rewrite Hs, He. simpl. apply Hgen.
  - intros Hr.
    assert (Hnone : Message.sent_between m start None
                    = Ok (bool_decide (s ≤ Message.date_time m ≤ s + 24 * 3600 * 1000000))).
    { unfold Message.sent_between. rewrite Hs. simpl.
      unfold datetime.add, datetime.timedelta_days, datetime.US_PER_DAY,
        datetime.US_PER_SECOND.
      replace (s + 1 * (86400 * 1000000)) with (s + 24 * 3600 * 1000000) by lia.
      rewrite Hr. simpl. apply Hgen. }
    split; [|split; [exact Hnone|split]].
    + rewrite Hnone. unfold Message.sent_between. rewrite Hs. simpl.
      symmetry. apply Hgen.
    + intros Hd. rewrite Hnone. f_equal. apply bool_decide_eq_true.
      unfold datetime.in_range in Hr. lia.
    + intros Hd. rewrite Hnone. f_equal. apply bool_decide_eq_true. lia.
Qed.

Lemma sent_between_inclusive_witness :
  Message.sent_between (fixtures.message_at fixtures.noon 1 "at start")
    (Tuple [2014; 3; 1; 12; 0]) None = Ok true
  ∧ Message.sent_between
      (fixtures.message_at (fixtures.noon + 24 * 3600 * 1000000) 2 "a day later")
      (Tuple [2014; 3; 1; 12; 0]) None = Ok true.
Proof.
  assert (Hs : Message._date_parse (Tuple [2014; 3; 1; 12; 0]) = Ok fixtures.noon)
    by reflexivity.
  assert (Hr : datetime.in_range (fixtures.noon + 24 * 3600 * 1000000) = true)
    by reflexivity.
  split.
  - destruct (sent_between_inclusive
                (fixtures.message_at fixtures.noon 1 "at start") _ _ Hs)
      as [_ H]. destruct (H Hr) as (_ & _ & H1 & _). apply H1. reflexivity.
  - destruct (sent_between_inclusive
                (fixtures.message_at (fixtures.noon + 24 * 3600 * 1000000) 2 "a day later")
                _ _ Hs)
      as [_ H]. destruct (H Hr) as (_ & _ & _ & H2). apply H2. reflexivity.
Defined.

(** The calendar arithmetic agrees with [datetime] at the ends of its range:
    0001-01-01 is the origin and 9999-12-31T23:59:59.999999 the last value. *)
Example datetime_range_ends :
  datetime.make 1 1 1 0 0 0 0 = Ok 0
  ∧ datetime.make 9999 12 31 23 59 59 999999
    = Ok (datetime.MAXORDINAL * datetime.US_PER_DAY - 1)
  ∧ datetime.make 2014 2 29 0 0 0 0 = Raise ValueError
  ∧ datetime.add (datetime.MAXORDINAL * datetime.US_PER_DAY - 1)
      (datetime.timedelta_days 1) = Raise OverflowError.
Proof. vm_compute. repeat split. Qed.

(** A field beyond a C [int] is an [OverflowError]; with eight fields the
    date is checked before the eighth is refused. *)
Example datetime_argument_errors :
  datetime.of_tuple [2147483648; 1; 1] = Raise OverflowError
  ∧ datetime.of_tuple [2014; 13; 1; 0; 0; 0; 0; 0] = Raise ValueError
  ∧ datetime.of_tuple [2014; 3; 1; 0; 0; 0; 0; 0] = Raise TypeError
  ∧ datetime.of_tuple [2014; 3] = Raise TypeError
  ∧ datetime.of_tuple [2014; 3; 1; 0; 0; 0; 0; 0; 0] = Raise TypeError.
Proof. vm_compute. repeat split. Qed.

(** ** Message: substring search *)

Section strings.
Local Open Scope string_scope.
Implicit Types s p sub pre post : string.

Lemma append_cons (c : ascii) s1 s2 : String c s1 ++ s2 = String c (s1 ++ s2).
Proof. reflexivity. Qed.

Lemma append_nil s : EmptyString ++ s = s.
Proof. reflexivity. Qed.

Lemma startswith_iff p s :
  pystr.startswith p s = true ↔ ∃ post, s = p ++ post.
Proof.
  revert s. induction p as [|a p IH]; intros s; simpl.
  - split; [eauto|done].
  - destruct s as [|b s].
    + split; [done|]. intros [post H]. discriminate.
    + destruct (Ascii.eqb_spec a b) as [->|Hne].
      * rewrite IH. split; intros [post H]; exists post;
          rewrite append_cons in *; congruence.
      * split; [done|]. intros [post H]. rewrite append_cons in H. congruence.
Qed.

Lemma contains_iff sub s :
  pystr.contains sub s = true ↔ substring_of sub s.
Proof.
  unfold substring_of. induction s as [|c s IH].
  - simpl. rewrite orb_false_r, startswith_iff. split.
    + intros [post H]. exists EmptyString, post. done.
    + intros (pre & post & H). destruct pre; [eauto|discriminate].
  - cbn [pystr.contains]. rewrite orb_true_iff, IH, startswith_iff. split.
    + intros [[post H]|(pre & post & H)].
      * exists EmptyString, post. done.
      * exists (String c pre), post. rewrite append_cons. by rewrite H.
    + intros (pre & post & H). destruct pre as [|c' pre].
      * left. eauto.
      * right. exists pre, post. rewrite append_cons in H. congruence.
Qed.

Lemma lower_app s1 s2 : pystr.lower (s1 ++ s2) = pystr.lower s1 ++ pystr.lower s2.
Proof.
  induction s1 as [|c s1 IH]; [done|].
  rewrite append_cons. simpl. rewrite append_cons. congruence.
Qed.

Lemma substring_of_lower sub s :
  substring_of sub s → substring_of (pystr.lower sub) (pystr.lower s).
Proof.
  intros (pre & post & ->). exists (pystr.lower pre), (pystr.lower post).
  by rewrite !lower_app.
Qed.

End strings.

(** C8. Case-sensitive search is substring containment in the text;
    case-insensitive search is substring containment of the lowercased
    needle in the lowercased text. A message containing "hello" and not
    "Hello" is excluded by the case-sensitive search for "Hello" and included
    by the case-insensitive one. *)
Theorem contains_is_substring (m : Message.t) (s : string) :
  (Message.contains m s false = true ↔ substring_of s (Message.text m))
  ∧ (Message.contains m s true = true ↔
     substring_of (pystr.lower s) (pystr.lower (Message.text m)))
  ∧ (substring_of "hello" (Message.text m) →
     ¬ substring_of "Hello" (Message.text m) →
     Message.contains m "Hello" false = false
     ∧ Message.contains m "Hello" true = true).
Proof.
  unfold Message.contains. split; [apply contains_iff|].
  split; [apply contains_iff|].
  intros Hin Hnot. split.
  - apply not_true_is_false. by rewrite contains_iff.
  - apply contains_iff. apply (substring_of_lower "hello"). exact Hin.
Qed.

Lemma contains_is_substring_witness :
  Message.contains (fixtures.message_at fixtures.noon 1 "oh hello there") "Hello" false
  = false
  ∧ Message.contains (fixtures.message_at fixtures.noon 1 "oh hello there") "Hello" true
    = true.
Proof.
  apply (contains_is_substring
           (fixtures.message_at fixtures.noon 1 "oh hello there") "Hello").
  - exists "oh "%string, " there"%string. reflexivity.
  - intros H.
    apply (contains_iff "Hello" "oh hello there") in H. vm_compute in H. discriminate.
Defined.

(** ** Message: length *)

Section replace.
Local Open Scope string_scope.
Implicit Types s p old new : string.

Lemma string_length_app s1 s2 :
  String.length (s1 ++ s2) = (String.length s1 + String.length s2)%nat.
Proof.
  induction s1 as [|c s1 IH]; [done|].
  rewrite append_cons. simpl. by rewrite IH.
Qed.

Lemma startswith_length p s :
  pystr.startswith p s = true → (String.length p ≤ String.length s)%nat.
Proof.
  rewrite startswith_iff. intros [post ->]. rewrite string_length_app. lia.
Qed.

(** Every occurrence that [replace] rewrites trades the length of [old] for
    the length of [new]; [skip] characters are dropped at the front. *)
Lemma replace_from_length old new s (skip : nat) :
  (1 ≤ String.length old)%nat →
  (String.length (pystr.replace_from skip old new s)
   + pystr.count_from skip old s * String.length old
   + skip `min` String.length s
   = String.length s + pystr.count_from skip old s * String.length new)%nat.
Proof.
  intros Hold. revert skip. induction s as [|c s IH]; intros skip.
  - simpl. lia.
  - destruct skip as [|k].
    + cbn [pystr.replace_from pystr.count_from].
      destruct (pystr.startswith old (String c s)) eqn:Hp.
      * apply startswith_length in Hp. simpl in Hp.
        specialize (IH (String.length old - 1)%nat).
        rewrite string_length_app. simpl. lia.
      * specialize (IH O). simpl. simpl in IH. lia.
    + cbn [pystr.replace_from pystr.count_from].
      specialize (IH k). simpl. lia.
Qed.

Lemma replace_length old new s :
  (1 ≤ String.length old)%nat →
  (String.length (pystr.replace old new s) + pystr.count old s * String.length old
   = String.length s + pystr.count old s * String.length new)%nat.
Proof.
  intros Hold. destruct old as [|c old]; [simpl in Hold; lia|].
  unfold pystr.replace, pystr.count.
  pose proof (replace_from_length (String c old) new s O Hold). lia.
Qed.

End replace.

(** C3 (as amended). The length of a message is the length of its text less
    11 characters for every newline-placeholder token (the token is deleted,
    it does not count as a character) and less one character for every
    doubled quote left after that. The stored text of the example,
    [fixtures.escaped_text], has length 15. *)
Theorem len_strips_artifacts (m : Message.t) :
  (Message.__len__ m
   + 11 * pystr.count "<|NEWLINE|>" (Message.text m)
   + pystr.count (pystr.dquote ++ pystr.dquote)
       (pystr.replace "<|NEWLINE|>" EmptyString (Message.text m))
   = String.length (Message.text m))%nat
  ∧ Message.__len__ (fixtures.message_at fixtures.noon 1 fixtures.escaped_text) = 15%nat.
Proof.
  split; [|reflexivity].
  unfold Message.__len__.
  pose proof (replace_length "<|NEWLINE|>" EmptyString (Message.text m)) as H1.
  pose proof (replace_length (pystr.dquote ++ pystr.dquote) pystr.dquote
                (pystr.replace "<|NEWLINE|>" EmptyString (Message.text m))) as H2.
  change (String.length "<|NEWLINE|>") with 11%nat in H1.
  change (String.length EmptyString) with 0%nat in H1.
  change (String.length (pystr.dquote ++ pystr.dquote)) with 2%nat in H2.
  change (String.length pystr.dquote) with 1%nat in H2.
  lia.
Qed.

(** C3 (as stated) fails: the stored text of the example reports 15, while
    the original text, with its line feed, has 16 characters. *)
Lemma len_newline_token_not_counted :
  String.length fixtures.original_text = 16%nat
  ∧ Message.__len__ (fixtures.message_at fixtures.noon 1 fixtures.escaped_text) = 15%nat
  ∧ Message.__len__ (fixtures.message_at fixtures.noon 1 fixtures.escaped_text)
    ≠ String.length fixtures.original_text.
Proof. vm_compute. repeat split. discriminate. Qed.

(** ** Sorted lists *)

Lemma StronglySorted_weaken {A : Type} (R1 R2 : relation A) (l : list A) :
  (∀ a b, R1 a b → R2 a b) → StronglySorted R1 l → StronglySorted R2 l.
Proof.
  intros HR. induction 1 as [|x l Hs IH Hx]; constructor; [done|].
  eapply Forall_impl; [exact Hx|]. auto.
Qed.

Lemma StronglySorted_reverse {A : Type} (R : relation A) (l : list A) :
  StronglySorted R l → StronglySorted (flip R) (reverse l).
Proof.
  induction 1 as [|x l Hs IH Hx]; [constructor|].
  rewrite reverse_cons. apply StronglySorted_app. split_and!.
  - intros x1 x2 Hx1 ->%list_elem_of_singleton.
    rewrite Forall_forall in Hx. apply Hx. by apply elem_of_reverse.
  - done.
  - repeat constructor.
Qed.

(** ** [sorted] *)

Section sorted_facts.
Context {A : Type} (lt : A → A → bool).
Implicit Types (x y : A) (l racc : list A).

Lemma insort_perm x racc : insort lt x racc ≡ₚ x :: racc.
Proof.
  induction racc as [|y racc IH]; simpl; [done|].
  destruct (lt x y); [|done]. rewrite IH. apply Permutation_swap.
Qed.

Lemma foldl_insort_perm l racc :
  foldl (λ racc x, insort lt x racc) racc l ≡ₚ racc ++ l.
Proof.
  revert racc. induction l as [|x l IH]; intros racc; simpl.
  - by rewrite app_nil_r.
  - rewrite IH, insort_perm. simpl. apply Permutation_middle.
Qed.

Lemma sorted_perm l : sorted lt l ≡ₚ l.
Proof. unfold sorted. by rewrite reverse_Permutation, foldl_insort_perm. Qed.

(** A list in which no element is less than its predecessor is left as it
    is. *)
Lemma foldl_insort_run l racc :
  Sorted (λ a b, lt b a = false) l →
  match l, racc with
  | x :: _, y :: _ => lt x y = false
  | _, _ => True
  end →
  foldl (λ racc x, insort lt x racc) racc l = reverse l ++ racc.
Proof.
  revert racc. induction l as [|x l IH]; intros racc Hs Hhd; [done|].
  apply Sorted_inv in Hs as [Hs Hx]. cbn [foldl].
  assert (insort lt x racc = x :: racc) as ->.
  { destruct racc as [|y racc]; [done|]. simpl. by rewrite Hhd. }
  rewrite IH; [|done|].
  - by rewrite reverse_cons, <- app_assoc.
  - destruct l as [|x' l]; [done|]. by apply HdRel_inv in Hx.
Qed.

Lemma sorted_run l : Sorted (λ a b, lt b a = false) l → sorted lt l = l.
Proof.
  intros Hs. unfold sorted. rewrite foldl_insort_run; [|done|by destruct l].
  by rewrite app_nil_r, reverse_involutive.
Qed.

(** Where [<] is asymmetric and its complement transitive on the elements at
    hand, the result is ascending. [U] delimits those elements. *)
Section consistent.
Variable U : A → Prop.
Hypothesis lt_asym_on : ∀ a b, U a → U b → lt a b = true → lt b a = false.
Hypothesis lt_negtrans_on :
  ∀ a b c, U a → U b → U c → lt a b = false → lt b c = false → lt a c = false.

Lemma insort_descending x racc :
  U x → Forall U racc →
  StronglySorted (λ a b, lt a b = false) racc →
  StronglySorted (λ a b, lt a b = false) (insort lt x racc).
Proof.
  intros Hx Hl Hs. induction racc as [|y racc IH]; simpl.
  - repeat constructor.
  - apply StronglySorted_cons in Hs as [Hy Hs].
    apply Forall_cons in Hl as [HUy Hl].
    destruct (lt x y) eqn:Hxy.
    + apply StronglySorted_cons. split; [|by apply IH].
      rewrite insort_perm. apply Forall_cons. split; [by apply lt_asym_on|done].
    + apply StronglySorted_cons. split; [|by apply StronglySorted_cons].
      apply Forall_cons. split; [done|].
      rewrite Forall_forall in Hy, Hl |- *. intros w Hw.
      apply (lt_negtrans_on x y w); auto.
Qed.

Lemma foldl_insort_descending l racc :
  Forall U l → Forall U racc →
  StronglySorted (λ a b, lt a b = false) racc →
  StronglySorted (λ a b, lt a b = false) (foldl (λ racc x, insort lt x racc) racc l).
Proof.
  revert racc. induction l as [|x l IH]; intros racc Hl Hracc Hs; simpl; [done|].
  apply Forall_cons in Hl as [Hx Hl].
  apply IH; [done| |by apply insort_descending].
  rewrite insort_perm. by apply Forall_cons.
Qed.

Lemma sorted_ascending l : Forall U l → ascending lt (sorted lt l).
Proof.
  intros Hl. unfold ascending, sorted.
  apply (StronglySorted_reverse (λ a b, lt a b = false)).
  apply foldl_insort_descending; [done|constructor|constructor].
Qed.

End consistent.

End sorted_facts.

(** Sorting by an integer key. *)
Section sorted_by_key.
Context {A : Type} (key : A → nat).
Implicit Types (x y : A) (l racc : list A).

Let ltk : A → A → bool := λ a b, (key a <? key b)%nat.

Lemma sorted_key_ascending l :
  StronglySorted (λ a b, (key a ≤ key b)%nat) (sorted ltk l).
Proof.
  assert (H : ascending ltk (sorted ltk l)).
  { apply (sorted_ascending ltk (λ _, True)).
    - intros a b _ _. unfold ltk. rewrite Nat.ltb_lt, Nat.ltb_ge. lia.
    - intros a b c _ _ _. unfold ltk. rewrite !Nat.ltb_ge. lia.
    - by apply Forall_forall. }
  unfold ascending in H. eapply StronglySorted_weaken; [|exact H].
  intros a b. unfold ltk. by rewrite Nat.ltb_ge.
Qed.

(** Stability: the elements of one key keep their order. *)
Lemma insort_with_key k x racc :
  with_key key k (insort ltk x racc)
  = if decide (key x = k) then x :: with_key key k racc else with_key key k racc.
Proof.
  unfold with_key. induction racc as [|y racc IH]; simpl.
  - rewrite filter_cons, filter_nil. done.
  - unfold ltk at 1. destruct (Nat.ltb_spec (key x) (key y)) as [Hlt|Hge].
    + rewrite !(filter_cons _ y), IH.
      destruct (decide (key y = k)), (decide (key x = k)); done || lia.
    + by rewrite (filter_cons _ x).
Qed.

Lemma foldl_insort_with_key k l racc :
  with_key key k (foldl (λ racc x, insort ltk x racc) racc l)
  = reverse (with_key key k l) ++ with_key key k racc.
Proof.
  revert racc. induction l as [|x l IH]; intros racc; simpl; [done|].
  rewrite IH, insort_with_key. unfold with_key. rewrite (filter_cons _ x).
  destruct (decide (key x = k)); [|done].
  by rewrite reverse_cons, <- app_assoc.
Qed.

Lemma sorted_with_key k l : with_key key k (sorted ltk l) = with_key key k l.
Proof.
  pose proof (foldl_insort_with_key k l []) as H.
  unfold sorted, with_key in H |- *.
  by rewrite filter_reverse, H, filter_nil, app_nil_r, reverse_involutive.
Qed.

Lemma sorted_key_reverse_with_key k l :
  with_key key k (sorted_key_reverse key l) = with_key key k l.
Proof.
  pose proof (sorted_with_key k (reverse l)) as H.
  unfold sorted_key_reverse, with_key, ltk in H |- *.
  by rewrite filter_reverse, H, filter_reverse, reverse_involutive.
Qed.

Lemma sorted_key_reverse_perm l : sorted_key_reverse key l ≡ₚ l.
Proof.
  unfold sorted_key_reverse.
  by rewrite reverse_Permutation, sorted_perm, reverse_Permutation.
Qed.

Lemma sorted_key_reverse_descending l :
  descending_by key (sorted_key_reverse key l).
Proof.
  unfold descending_by, sorted_key_reverse.
  apply (StronglySorted_reverse (λ a b, (key a ≤ key b)%nat)).
  apply sorted_key_ascending.
Qed.

End sorted_by_key.

(** ** Chat: construction *)

(** C5. [Chat.threads] is the list of threads given to the constructor,
    rearranged by descending message count; the threads of one count keep
    their input order. Threads with 5, 3, 3 and 8 messages end up in the
    order 8, 5, 3, 3, the two threads of 3 messages as they came. *)
Theorem chat_threads_sorted_stable (h : heap) (myname : string) (threads : list Thread.t) :
  Chat.threads (Chat.__init__ h myname threads) ≡ₚ threads
  ∧ descending_by Thread.__len__ (Chat.threads (Chat.__init__ h myname threads))
  ∧ (∀ k : nat,
       with_key Thread.__len__ k (Chat.threads (Chat.__init__ h myname threads))
       = with_key Thread.__len__ k threads)
  ∧ Thread.__len__ <$> [fixtures.thread5; fixtures.thread3; fixtures.thread3'; fixtures.thread8]
    = [5; 3; 3; 8]%nat
  ∧ Chat.threads fixtures.chat
    = [fixtures.thread8; fixtures.thread5; fixtures.thread3; fixtures.thread3']
  ∧ fixtures.thread3 ≠ fixtures.thread3'.
Proof.
  split_and!.
  - apply sorted_key_reverse_perm.
  - apply sorted_key_reverse_descending.
  - intros k. apply sorted_key_reverse_with_key.
  - vm_compute. reflexivity.
  - vm_compute. reflexivity.
  - vm_compute. discriminate.
Qed.

(** ** Thread: merging *)

Lemma obj_lt_asym (h : heap) (a b : ref) :
  obj_lt h a b = true → obj_lt h b a = false.
Proof.
  unfold obj_lt. destruct (h !! a), (h !! b); try done. apply lt_asym.
Qed.

Lemma obj_lt_negtrans_on (h : heap) (refs : list ref) (a b c : ref) :
  stored h refs → pairwise_comparable h refs →
  a ∈ refs → b ∈ refs → c ∈ refs →
  obj_lt h a b = false → obj_lt h b c = false → obj_lt h a c = false.
Proof.
  intros Hst Hpc Ha Hb Hc. unfold obj_lt.
  destruct (Hst a Ha) as [ma Ea], (Hst b Hb) as [mb Eb], (Hst c Hc) as [mc Ec].
  rewrite Ea, Eb, Ec.
  apply lt_negtrans_comparable; [by apply (Hpc a b)|by apply (Hpc b c)|by apply (Hpc a c)].
Qed.

Lemma sorted_refs_ascending (h : heap) (refs : list ref) :
  stored h refs → pairwise_comparable h refs →
  ascending (obj_lt h) (sorted (obj_lt h) refs).
Proof.
  intros Hst Hpc. apply (sorted_ascending (obj_lt h) (λ r, r ∈ refs)).
  - intros a b _ _. apply obj_lt_asym.
  - intros a b c. by apply obj_lt_negtrans_on.
  - by apply Forall_forall.
Qed.

(** C6 (as amended). After [_add_messages] the messages of the thread are a
    permutation of the previous messages followed by the new ones, and so
    keep every repetition; and when any two of these messages are in
    comparable sequence-number range, no message of the list is less than one
    placed before it. The same holds of the list a thread is built from. *)
Theorem thread_messages_permutation_sorted
    (h : heap) (t : Thread.t) (people : list string) (ms : list ref) :
  Thread.messages (Thread._add_messages h t ms) ≡ₚ Thread.messages t ++ ms
  ∧ (stored h (Thread.messages t ++ ms) →
     pairwise_comparable h (Thread.messages t ++ ms) →
     ascending (obj_lt h) (Thread.messages (Thread._add_messages h t ms)))
  ∧ Thread.messages (Thread.__init__ h people ms) ≡ₚ ms
  ∧ (stored h ms → pairwise_comparable h ms →
     ascending (obj_lt h) (Thread.messages (Thread.__init__ h people ms))).
Proof.
  split_and!; simpl.
  - apply sorted_perm.
  - apply sorted_refs_ascending.
  - apply sorted_perm.
  - apply sorted_refs_ascending.
Qed.

Lemma thread_messages_permutation_sorted_witness :
  Thread.messages (Thread._add_messages fixtures.minutes_heap fixtures.late_thread [2%nat])
  = [1; 2; 3]%nat
  ∧ ascending (obj_lt fixtures.minutes_heap)
      (Thread.messages
         (Thread._add_messages fixtures.minutes_heap fixtures.late_thread [2%nat])).
Proof.
  split; [reflexivity|].
  apply (thread_messages_permutation_sorted
           fixtures.minutes_heap fixtures.late_thread [] [2%nat]).
  - intros r Hr.
    change (Thread.messages fixtures.late_thread ++ [2%nat]) with [1; 3; 2]%nat in Hr.
    repeat (apply elem_of_cons in Hr as [->|Hr]); [..|by apply elem_of_nil in Hr];
      vm_compute; eauto.
  - intros r1 r2 m1 m2 H1 H2 L1 L2 Hd.
    change (Thread.messages fixtures.late_thread ++ [2%nat]) with [1; 3; 2]%nat in H1, H2.
    repeat (apply elem_of_cons in H1 as [->|H1]); [..|by apply elem_of_nil in H1];
      (repeat (apply elem_of_cons in H2 as [->|H2]); [..|by apply elem_of_nil in H2]);
      vm_compute in L1, L2; simplify_eq; vm_compute; discriminate.
Defined.

(** The list 5000, 10000, 1 of one timestamp is an ascending run as far as
    [<] can tell: no element is less than its predecessor. Sorting leaves it
    as it is. *)
Example gap_list_is_a_run :
  Sorted (λ a b, obj_lt fixtures.gap_heap b a = false) [0; 1; 2]%nat
  ∧ sorted (obj_lt fixtures.gap_heap) [0; 1; 2]%nat = [0; 1; 2]%nat.
Proof.
  assert (H : Sorted (λ a b, obj_lt fixtures.gap_heap b a = false) [0; 1; 2]%nat)
    by (repeat constructor).
  split; [exact H|]. by apply sorted_run.
Qed.

(** C6 (as stated) fails. At one timestamp, adding number 1 to the thread of
    5000 and 10000 leaves it last: 1 is not less than 10000 across the gap.
    It is less than 5000, which stands before it. *)
Lemma thread_messages_not_sorted_across_gap :
  Thread.messages fixtures.gap_thread = [0; 1; 2]%nat
  ∧ obj_lt fixtures.gap_heap 2%nat 0%nat = true
  ∧ ¬ ascending (obj_lt fixtures.gap_heap) (Thread.messages fixtures.gap_thread).
Proof.
  split_and!; [reflexivity|reflexivity|].
  change (Thread.messages fixtures.gap_thread) with [0; 1; 2]%nat.
  unfold ascending. intros Hs.
  apply StronglySorted_cons in Hs as [H0 _].
  apply Forall_cons in H0 as [_ H0]. apply Forall_cons in H0 as [H0 _].
  vm_compute in H0. discriminate.
Qed.

(** ** Thread: renumbering *)

(** The loop leaves every object outside the list alone, and an object of
    the list ends with the counter of its last position. *)
Lemma renumber_loop_lookup (rs : list ref) (j : Z) (h : heap) (r : ref) :
  (r ∉ rs → Thread.renumber_loop j rs h !! r = h !! r)
  ∧ (∀ i : nat, rs !! i = Some r → r ∉ drop (S i) rs →
     Thread.renumber_loop j rs h !! r
     = (λ m, with_num m (j + Z.of_nat i)) <$> h !! r).
Proof.
  revert j h. induction rs as [|a rs IH]; intros j h; simpl.
  - split; [done|]. intros i Hi. done.
  - destruct (IH (j + 1) (Thread.set_num a j h)) as [IH1 IH2]. split.
    + intros [Hne Hnot]%not_elem_of_cons. rewrite IH1 by done.
      unfold Thread.set_num. by rewrite lookup_alter_ne.
    + intros [|i] Hi Hlast; simpl in *.
      * injection Hi as ->. rewrite drop_0 in Hlast. rewrite IH1 by done.
        unfold Thread.set_num. rewrite lookup_alter_eq.
        replace (j + Z.of_nat 0) with j by lia. done.
      * rewrite (IH2 i) by done. unfold Thread.set_num.
        replace (j + 1 + Z.of_nat i) with (j + Z.of_nat (S i)) by lia.
        destruct (decide (a = r)) as [->|Hne].
        -- rewrite lookup_alter_eq. by destruct (h !! r).
        -- by rewrite lookup_alter_ne.
Qed.

Lemma NoDup_not_in_drop (rs : list ref) (i : nat) (r : ref) :
  NoDup rs → rs !! i = Some r → r ∉ drop (S i) rs.
Proof.
  intros Hnd Hi [k Hk]%list_elem_of_lookup_1. rewrite lookup_drop in Hk.
  pose proof (NoDup_lookup _ _ _ _ Hnd Hi Hk). lia.
Qed.

(** C7 (as amended). When the list of a thread holds pairwise distinct
    objects, after [_renumber_messages] the object at position [i], counted
    from 1, carries sequence number [i], so the numbers along the list are
    1, 2, ..., n; its other fields are as before, objects outside the list
    are untouched, and the list itself is not assigned. *)
Theorem renumber_assigns_positions (h : heap) (t : Thread.t) :
  NoDup (Thread.messages t) →
  (∀ (i : nat) (r : ref) (m : Message.t),
     Thread.messages t !! i = Some r → h !! r = Some m →
     Thread._renumber_messages t h !! r = Some (with_num m (Z.of_nat i + 1)))
  ∧ (stored h (Thread.messages t) →
     (λ r, Message._num <$> Thread._renumber_messages t h !! r) <$> Thread.messages t
     = Some <$> seqZ 1 (Z.of_nat (length (Thread.messages t))))
  ∧ (∀ r : ref, r ∉ Thread.messages t →
     Thread._renumber_messages t h !! r = h !! r).
Proof.
  intros Hnd. unfold Thread._renumber_messages.
  assert (Hpos : ∀ (i : nat) (r : ref) (m : Message.t),
            Thread.messages t !! i = Some r → h !! r = Some m →
            Thread.renumber_loop 1 (Thread.messages t) h !! r
            = Some (with_num m (Z.of_nat i + 1))).
  { intros i r m Hi Hm.
    destruct (renumber_loop_lookup (Thread.messages t) 1 h r) as [_ H].
    rewrite (H i Hi) by by apply NoDup_not_in_drop.
    rewrite Hm. simpl. do 2 f_equal. lia. }
  split_and!.
  - exact Hpos.
  - intros Hst. apply list_eq. intros i. rewrite !list_lookup_fmap.
    destruct (Thread.messages t !! i) as [r|] eqn:Hi; simpl.
    + destruct (Hst r) as [m Hm]; [by eapply list_elem_of_lookup_2|].
      rewrite (Hpos i r m Hi Hm). simpl.
      apply lookup_lt_Some in Hi.
      rewrite lookup_seqZ_lt by lia. simpl. do 2 f_equal. lia.
    + apply lookup_ge_None in Hi. rewrite lookup_seqZ_ge by lia. done.
  - intros r Hr.
    by destruct (renumber_loop_lookup (Thread.messages t) 1 h r) as [-> _].
Qed.

Lemma renumber_assigns_positions_witness :
  Thread.messages fixtures.late_thread = [1; 3]%nat
  ∧ Message._num <$> fixtures.minutes_heap !! 3%nat = Some 4
  ∧ Thread._renumber_messages fixtures.late_thread fixtures.minutes_heap !! 3%nat
    = Some (with_num
              (fixtures.message_at
                 (fixtures.noon + 3 * 60 * datetime.US_PER_SECOND) 4 "text")
              (Z.of_nat 1 + 1)).
Proof.
  split_and!; [reflexivity|reflexivity|].
  assert (Hnd : NoDup (Thread.messages fixtures.late_thread)).
  { change (Thread.messages fixtures.late_thread) with [1; 3]%nat.
    apply NoDup_cons. split; [|apply NoDup_singleton].
    intros H%list_elem_of_singleton. discriminate. }
  exact (proj1 (renumber_assigns_positions fixtures.minutes_heap fixtures.late_thread Hnd)
           1%nat 3%nat _ eq_refl eq_refl).
Defined.

(** C7 (as stated) fails. In a thread that holds one object twice, both
    positions show the number written last: position 1 carries 2. *)
Lemma renumber_shared_object :
  Thread.messages fixtures.doubled_thread = [0; 0]%nat
  ∧ Message._num
    <$> Thread._renumber_messages fixtures.doubled_thread fixtures.single_heap !! 0%nat
    = Some 2.
Proof. split; vm_compute; reflexivity. Qed.

(** ** Chat: lookup *)

(** The index holds, under each label, the last thread of the list that
    carries it. *)
Lemma thread_dict_of_lookup (threads : list Thread.t) (k : string) :
  Chat.thread_dict_of threads !! k = last (filter (λ t, label t = k) threads).
Proof.
  unfold Chat.thread_dict_of.
  induction threads as [|x threads IH] using rev_ind; [done|].
  rewrite foldl_snoc, filter_app, filter_cons, filter_nil.
  fold (label x). destruct (decide (label x = k)) as [Hk|Hk].
  - rewrite Hk, lookup_insert_eq. by rewrite last_snoc.
  - rewrite lookup_insert_ne by done. by rewrite app_nil_r.
Qed.

Lemma thread_dict_of_Some (threads : list Thread.t) (k : string) (t : Thread.t) :
  Chat.thread_dict_of threads !! k = Some t → t ∈ threads ∧ label t = k.
Proof.
  rewrite thread_dict_of_lookup. intros H.
  assert (Hin : t ∈ filter (λ t, label t = k) threads).
  { destruct (filter _ threads) as [|y l] using rev_ind; [done|].
    rewrite last_snoc in H. injection H as ->.
    apply elem_of_app. right. by apply list_elem_of_singleton. }
  by apply list_elem_of_filter in Hin as [? ?].
Qed.

Lemma thread_dict_of_None (threads : list Thread.t) (k : string) :
  Chat.thread_dict_of threads !! k = None ↔ ∀ t, t ∈ threads → label t ≠ k.
Proof.
  rewrite thread_dict_of_lookup, last_None. split.
  - intros H t Ht Hk.
    assert (Hin : t ∈ filter (λ t, label t = k) threads)
      by by apply list_elem_of_filter.
    rewrite H in Hin. by apply elem_of_nil in Hin.
  - intros H. destruct (filter _ threads) as [|t l] eqn:Hf; [done|].
    assert (Hin : t ∈ filter (λ t, label t = k) threads)
      by (rewrite Hf; apply elem_of_cons; by left).
    apply list_elem_of_filter in Hin as [Hk Ht]. by destruct (H t Ht).
Qed.

Lemma list_getitem_position {A : Type} (l : list A) (i : nat) (x : A) :
  l !! i = Some x → list_getitem l (Z.of_nat i) = Ok x.
Proof.
  intros Hi. unfold list_getitem.
  pose proof (lookup_lt_Some _ _ _ Hi) as Hlt.
  destruct (Z.ltb_spec (Z.of_nat i) 0) as [|_]; [lia|].
  destruct (Z.leb_spec 0 (Z.of_nat i)) as [_|]; [|lia].
  destruct (Z.ltb_spec (Z.of_nat i) (Z.of_nat (length l))) as [_|]; [|lia].
  simpl. by rewrite Nat2Z.id, Hi.
Qed.

(** C9. In a chat built by the constructor, a string key that is in the
    index returns the thread stored under it, which is a thread of the chat
    whose comma-joined participant list is the key; a string key that is not
    in the index, which happens exactly when no thread carries that label,
    raises [KeyError]; and an integer key that is a position of the sorted
    list returns the thread at that position. *)
Theorem getitem_by_label_or_position
    (h : heap) (myname : string) (threads : list Thread.t) :
  (∀ (k : string) (t : Thread.t),
     Chat._thread_dict (Chat.__init__ h myname threads) !! k = Some t →
     Chat.__getitem__ (Chat.__init__ h myname threads) (PStr k) = Ok (Some t)
     ∧ t ∈ Chat.threads (Chat.__init__ h myname threads)
     ∧ pystr.join ", " (Thread.people t) = k)
  ∧ (∀ k : string,
       Chat._thread_dict (Chat.__init__ h myname threads) !! k = None →
       Chat.__getitem__ (Chat.__init__ h myname threads) (PStr k) = Raise KeyError
       ∧ ∀ t, t ∈ threads → pystr.join ", " (Thread.people t) ≠ k)
  ∧ (∀ (i : nat) (t : Thread.t),
       Chat.threads (Chat.__init__ h myname threads) !! i = Some t →
       Chat.__getitem__ (Chat.__init__ h myname threads) (PInt (Z.of_nat i))
       = Ok (Some t)).
Proof.
  split_and!.
  - intros k t Hk. unfold Chat.__getitem__. rewrite Hk. split; [done|].
    simpl in Hk. by apply thread_dict_of_Some in Hk.
  - intros k Hk. unfold Chat.__getitem__. rewrite Hk. split; [done|].
    simpl in Hk. intros t Ht.
    apply (proj1 (thread_dict_of_None _ k) Hk).
    by rewrite sorted_key_reverse_perm.
  - intros i t Hi. unfold Chat.__getitem__.
    by rewrite (list_getitem_position _ i t Hi).
Qed.

Lemma getitem_by_label_or_position_witness :
  Chat.__getitem__ fixtures.chat (PStr "Ann, Dee") = Ok (Some fixtures.thread3')
  ∧ Chat.__getitem__ fixtures.chat (PStr "Ann, Zed") = Raise KeyError
  ∧ Chat.__getitem__ fixtures.chat (PInt 0) = Ok (Some fixtures.thread8).
Proof.
  destruct (getitem_by_label_or_position fixtures.minutes_heap "Ann"
              [fixtures.thread5; fixtures.thread3; fixtures.thread3'; fixtures.thread8])
    as (Hin & Hout & Hpos).
  split_and!.
  - apply (Hin "Ann, Dee"). vm_compute. reflexivity.
  - apply (Hout "Ann, Zed"). vm_compute. reflexivity.
  - apply (Hpos 0%nat). vm_compute. reflexivity.
Defined.

(** C10. A key that is neither an [int] nor a [str] makes [__getitem__]
    return [None]; nothing is raised. *)
Theorem getitem_other_key_none (c : Chat.t) (key : pyval) :
  (∀ i : Z, key ≠ PInt i) → (∀ s : string, key ≠ PStr s) →
  Chat.__getitem__ c key = Ok None.
Proof.
  intros Hint Hstr. destruct key; try done.
  - by destruct (Hint i).
  - by destruct (Hstr s).
Qed.

Lemma getitem_other_key_none_witness :
  Chat.__getitem__ fixtures.chat PNone = Ok None
  ∧ Chat.__getitem__ fixtures.chat (PFloat 3 (-1)) = Ok None
  ∧ Chat.__getitem__ fixtures.chat (PTuple [PInt 0; PStr "Ann, Bob"]) = Ok None.
Proof.
  split_and!; apply getitem_other_key_none; intros; discriminate.
Defined.

(** * Further properties of the code *)

(** ** Message: equality and order *)

(** X1. [==] on messages is an equivalence relation, and it does not look at
    the thread label: a message compares equal to its copy filed under
    another thread. *)
Theorem message_eq_equivalence (a b c : Message.t) (other_thread : string) :
  Message.__eq__ a a = true
  ∧ Message.__eq__ a b = Message.__eq__ b a
  ∧ (Message.__eq__ a b = true → Message.__eq__ b c = true →
     Message.__eq__ a c = true)
  ∧ Message.__eq__
      {| Message.thread_name := other_thread;
         Message.author := Message.author a;
         Message.date_time := Message.date_time a;
         Message.text := Message.text a;
         Message._num := Message._num a |} a = true.
Proof.
  split_and!.
  - by apply eq_true_iff.
  - destruct (Message.__eq__ a b) eqn:Hab, (Message.__eq__ b a) eqn:Hba; try done.
    + apply eq_true_iff in Hab. rewrite <- Hba. symmetry.
      apply eq_true_iff. by destruct Hab as (-> & -> & -> & ->).
    + apply eq_true_iff in Hba. rewrite <- Hab.
      apply eq_true_iff. by destruct Hba as (-> & -> & -> & ->).
  - rewrite !eq_true_iff.
    intros (-> & -> & -> & ->) (-> & -> & -> & ->). done.
  - by apply eq_true_iff.
Qed.

Lemma message_eq_equivalence_witness :
  Message.__eq__ fixtures.m1 fixtures.m1 = true
  ∧ Message.__eq__ fixtures.m1 fixtures.m2 = Message.__eq__ fixtures.m2 fixtures.m1.
Proof.
  destruct (message_eq_equivalence fixtures.m1 fixtures.m1 fixtures.m1 "Ann, Cid")
    as (Hrefl & _ & Htrans & _).
  split; [exact (Htrans Hrefl Hrefl)|].
  exact (proj1 (proj2 (message_eq_equivalence fixtures.m1 fixtures.m2 fixtures.m1
                         "Ann, Cid"))).
Defined.

(** X2. Equal messages are never ordered: if [a == b] then neither [a < b]
    nor [a > b], whatever the sequence numbers. *)
Theorem message_eq_excludes_order (a b : Message.t) :
  Message.__eq__ a b = true →
  Message.__lt__ a b = Ok false ∧ Message.__gt__ a b = Ok false.
Proof.
  intros (Hn & _ & Hd & _)%eq_true_iff.
  unfold Message.__lt__, Message.__gt__. rewrite Hd, Hn, Z.eqb_refl, Z.sub_diag.
  simpl. by rewrite Z.ltb_irrefl, Z.gtb_ltb, Z.ltb_irrefl.
Qed.

Lemma message_eq_excludes_order_witness :
  Message.__lt__ fixtures.m10000 fixtures.m10000 = Ok false
  ∧ Message.__gt__ fixtures.m10000 fixtures.m10000 = Ok false.
Proof. apply message_eq_excludes_order. reflexivity. Defined.

(** X3. Within comparable sequence-number range [>] is the converse of [<]:
    [a > b] answers what [b < a] answers. *)
Theorem message_gt_converse_of_lt (a b : Message.t) :
  comparable a b → Message.__gt__ a b = Message.__lt__ b a.
Proof.
  intros Hc. rewrite gt_returns, lt_returns. f_equal.
  rewrite gt_unfold, lt_unfold. unfold comparable in Hc.
  rewrite (Z.eqb_sym (Message.date_time b)).
  destruct (Z.eqb_spec (Message.date_time a) (Message.date_time b)) as [He|Hne].
  - specialize (Hc He).
    destruct (Z.gtb_spec (Z.abs (Message._num a - Message._num b)) 9000); [lia|].
    destruct (Z.gtb_spec (Z.abs (Message._num b - Message._num a)) 9000); [lia|].
    apply Z.gtb_ltb.
  - apply Z.gtb_ltb.
Qed.

Lemma message_gt_converse_of_lt_witness :
  Message.__gt__ fixtures.m2 fixtures.m1 = Message.__lt__ fixtures.m1 fixtures.m2.
Proof.
  apply message_gt_converse_of_lt. intros _. vm_compute. discriminate.
Defined.

(** ** Message: date predicates *)

(** X4. For a date that parses, [sent_before] and [sent_after] are the
    strict comparisons with it, and [sent_between] from a date to the same
    date holds exactly of the messages sent at it; so exactly one of the
    three holds of any message: a message sent exactly at the date is
    neither before nor after it. *)
Theorem message_date_trichotomy (m : Message.t) (date : date_arg) (d : datetime.datetime) :
  Message._date_parse date = Ok d →
  Message.sent_before m date = Ok (bool_decide (Message.date_time m < d))
  ∧ Message.sent_after m date = Ok (bool_decide (d < Message.date_time m))
  ∧ Message.sent_between m date (Some date) = Ok (bool_decide (Message.date_time m = d))
  ∧ exactly_one_of3 (bool_decide (Message.date_time m < d))
      (bool_decide (Message.date_time m = d))
      (bool_decide (d < Message.date_time m)).
Proof.
  intros Hd. unfold Message.sent_before, Message.sent_after, Message.sent_between.
  rewrite Hd. simpl. split_and!.
  - f_equal. destruct (Z.ltb_spec (Message.date_time m) d); symmetry;
      [apply bool_decide_eq_true|apply bool_decide_eq_false]; lia.
  - f_equal. rewrite Z.gtb_ltb.
    destruct (Z.ltb_spec d (Message.date_time m)); symmetry;
      [apply bool_decide_eq_true|apply bool_decide_eq_false]; lia.
  - f_equal.
    destruct (Z.leb_spec d (Message.date_time m)), (Z.leb_spec (Message.date_time m) d);
      simpl; symmetry;
      first [apply bool_decide_eq_true; lia | apply bool_decide_eq_false; lia].
  - unfold exactly_one_of3.
    destruct (Z.lt_trichotomy (Message.date_time m) d) as [H|[H|H]].
    + left. rewrite bool_decide_eq_true, !bool_decide_eq_false. lia.
    + right. left. rewrite bool_decide_eq_true, !bool_decide_eq_false. lia.
    + right. right. rewrite bool_decide_eq_true, !bool_decide_eq_false. lia.
Qed.

Lemma message_date_trichotomy_witness :
  Message.sent_before fixtures.m1 (Tuple [2014; 3; 1; 12; 0]) = Ok false
  ∧ Message.sent_after fixtures.m1 (Tuple [2014; 3; 1; 12; 0]) = Ok false
  ∧ Message.sent_between fixtures.m1 (Tuple [2014; 3; 1; 12; 0])
      (Some (Tuple [2014; 3; 1; 12; 0])) = Ok true.
Proof.
  destruct (message_date_trichotomy fixtures.m1 (Tuple [2014; 3; 1; 12; 0])
              fixtures.noon eq_refl) as (H1 & H2 & H3 & _).
  split_and!; [exact H1|exact H2|exact H3].
Defined.

(** X5. A date that does not parse makes every date predicate raise the
    exception of the parse, in whichever argument it is passed; no predicate
    answers [False] for it. *)
Theorem message_date_error_propagates
    (m : Message.t) (bad : date_arg) (e : exn) (start : date_arg) (s : datetime.datetime) :
  Message._date_parse bad = Raise e →
  Message._date_parse start = Ok s →
  Message.sent_before m bad = Raise e
  ∧ Message.sent_after m bad = Raise e
  ∧ Message.sent_between m bad None = Raise e
  ∧ Message.sent_between m bad (Some start) = Raise e
  ∧ Message.sent_between m start (Some bad) = Raise e.
Proof.
  intros Hbad Hs.
  unfold Message.sent_before, Message.sent_after, Message.sent_between.
  rewrite Hbad, Hs. simpl. done.
Qed.

Lemma message_date_error_propagates_witness :
  Message.sent_before fixtures.m1 (Tuple [2014; 2; 29]) = Raise ValueError
  ∧ Message.sent_between fixtures.m1 (Native fixtures.noon) (Some (Tuple [2014; 3]))
    = Raise TypeError.
Proof.
  split.
  - exact (proj1 (message_date_error_propagates fixtures.m1 (Tuple [2014; 2; 29])
                    ValueError (Native fixtures.noon) fixtures.noon eq_refl eq_refl)).
  - exact (proj2 (proj2 (proj2 (proj2
             (message_date_error_propagates fixtures.m1 (Tuple [2014; 3])
                TypeError (Native fixtures.noon) fixtures.noon eq_refl eq_refl))))).
Defined.

(** X6. With [end] omitted, [sent_between] raises [OverflowError] exactly
    when [start] plus one day is past the last date, and does so for every
    message, also one sent at [start]. *)
Theorem message_sent_between_overflow
    (m : Message.t) (start : date_arg) (s : datetime.datetime) :
  Message._date_parse start = Ok s →
  datetime.in_range s = true →
  Message.sent_between m start None = Raise OverflowError
  ↔ datetime.MAXORDINAL * datetime.US_PER_DAY ≤ s + datetime.US_PER_DAY.
Proof.
  intros Hs Hr. unfold Message.sent_between. rewrite Hs. simpl.
  unfold datetime.add, datetime.timedelta_days.
  replace (s + 1 * datetime.US_PER_DAY) with (s + datetime.US_PER_DAY) by lia.
  unfold datetime.in_range in *.
  apply andb_true_iff in Hr as [Hr1%Z.leb_le Hr2%Z.ltb_lt].
  assert (0 < datetime.US_PER_DAY) by done.
  destruct (Z.leb_spec 0 (s + datetime.US_PER_DAY)); [|lia].
  destruct (Z.ltb_spec (s + datetime.US_PER_DAY)
              (datetime.MAXORDINAL * datetime.US_PER_DAY)); simpl.
  - split; [done|lia].
  - split; [lia|done].
Qed.

Lemma message_sent_between_overflow_witness :
  Message.sent_between (fixtures.message_at fixtures.noon 1 "text")
    (Tuple [9999; 12; 31]) None = Raise OverflowError.
Proof.
  assert (Hs : Message._date_parse (Tuple [9999; 12; 31])
               = Ok ((datetime.MAXORDINAL - 1) * datetime.US_PER_DAY)) by reflexivity.
  apply (message_sent_between_overflow _ _ _ Hs); [reflexivity|].
  vm_compute. discriminate.
Defined.

(** ** Message: length and search *)

Section plain_text.
Local Open Scope string_scope.
Implicit Types s old new sub : string.

Lemma contains_false_cons sub (c : ascii) s :
  pystr.contains sub (String c s) = false →
  pystr.startswith sub (String c s) = false ∧ pystr.contains sub s = false.
Proof. cbn [pystr.contains]. by intros [? ?]%orb_false_iff. Qed.

(** Where [old] does not occur nothing is replaced. *)
Lemma replace_absent old new s :
  (1 ≤ String.length old)%nat →
  pystr.contains old s = false → pystr.replace old new s = s.
Proof.
  intros Hold. destruct old as [|a old]; [simpl in Hold; lia|].
  unfold pystr.replace. induction s as [|c s IH]; [done|].
  intros [Hp Hs]%contains_false_cons.
  cbn [pystr.replace_from]. rewrite Hp. by rewrite IH.
Qed.

Lemma string_app_assoc s1 s2 s3 : (s1 ++ s2) ++ s3 = s1 ++ (s2 ++ s3).
Proof.
  induction s1 as [|c s1 IH]; [done|]. rewrite !append_cons. by rewrite IH.
Qed.

Lemma substring_of_length sub s :
  substring_of sub s → (String.length sub ≤ String.length s)%nat.
Proof. intros (pre & post & ->). rewrite !string_length_app. lia. Qed.

End plain_text.

(** X7. The length of a message never exceeds the length of its stored
    text, and a text with no newline-placeholder token and no doubled quote
    is counted as it stands. *)
Theorem len_at_most_raw (m : Message.t) :
  (Message.__len__ m ≤ String.length (Message.text m))%nat
  ∧ (pystr.contains "<|NEWLINE|>" (Message.text m) = false →
     pystr.contains (pystr.dquote ++ pystr.dquote) (Message.text m) = false →
     Message.__len__ m = String.length (Message.text m)).
Proof.
  unfold Message.__len__. split.
  - pose proof (replace_length "<|NEWLINE|>" EmptyString (Message.text m)) as H1.
    pose proof (replace_length (pystr.dquote ++ pystr.dquote) pystr.dquote
                  (pystr.replace "<|NEWLINE|>" EmptyString (Message.text m))) as H2.
    change (String.length "<|NEWLINE|>") with 11%nat in H1.
    change (String.length EmptyString) with 0%nat in H1.
    change (String.length (pystr.dquote ++ pystr.dquote)) with 2%nat in H2.
    change (String.length pystr.dquote) with 1%nat in H2.
    lia.
  - intros Hnl Hq.
    rewrite (replace_absent "<|NEWLINE|>") by (done || (simpl; lia)).
    rewrite (replace_absent (pystr.dquote ++ pystr.dquote)) by (done || (simpl; lia)).
    done.
Qed.

Lemma len_at_most_raw_witness :
  Message.__len__ fixtures.m5000 = 13%nat.
Proof.
  exact (proj2 (len_at_most_raw fixtures.m5000) eq_refl eq_refl).
Defined.

(** X8. The empty string and the text of the message itself are found in
    the message, with or without regard to case. A case-sensitive search
    never finds a string longer than the text, and finds every string that
    occurs in a string it finds. *)
Theorem contains_edge_cases (m : Message.t) (s sub : string) (ignore_case : bool) :
  Message.contains m EmptyString ignore_case = true
  ∧ Message.contains m (Message.text m) ignore_case = true
  ∧ ((String.length (Message.text m) < String.length s)%nat →
     Message.contains m s false = false)
  ∧ (Message.contains m s false = true → substring_of sub s →
     Message.contains m sub false = true).
Proof.
  assert (Hself : ∀ t : string, substring_of t t).
  { intros t. exists EmptyString, EmptyString. rewrite append_nil.
    induction t as [|c t IH]; [done|]. rewrite append_cons. by rewrite <- IH. }
  split_and!.
  - unfold Message.contains. destruct ignore_case; simpl.
    + by destruct (pystr.lower (Message.text m)).
    + by destruct (Message.text m).
  - unfold Message.contains. destruct ignore_case; apply contains_iff, Hself.
  - intros Hlen. apply not_true_is_false. unfold Message.contains.
    rewrite contains_iff. intros H%substring_of_length. lia.
  - unfold Message.contains. rewrite !contains_iff.
    intros (pre & post & ->) (pre' & post' & ->).
    exists (pre ++ pre')%string, (post' ++ post)%string.
    rewrite <- !string_app_assoc. done.
Qed.

Lemma contains_edge_cases_witness :
  Message.contains fixtures.m1 "one and more" false = false
  ∧ Message.contains fixtures.m5000 "thou" false = true.
Proof.
  split.
  - apply (contains_edge_cases fixtures.m1 "one and more" "one" false).
    vm_compute. lia.
  - apply (contains_edge_cases fixtures.m5000 "five thousand" "thou" false).
    + reflexivity.
    + exists "five "%string, "sand"%string. reflexivity.
Defined.

(** ** Lists, comprehensions and stored objects *)

Lemma stored_Forall (h : heap) (refs : list ref) :
  Forall (λ r, is_Some (h !! r)) refs → stored h refs.
Proof. intros H r Hr. rewrite Forall_forall in H. by apply H. Qed.

Lemma list_getitem_in_range {A : Type} (l : list A) (key : Z) :
  - Z.of_nat (length l) ≤ key < Z.of_nat (length l) →
  ∃ x, l !! position (length l) key = Some x ∧ list_getitem l key = Ok x.
Proof.
  intros Hkey. unfold list_getitem, position.
  set (j := if key <? 0 then key + Z.of_nat (length l) else key).
  assert (Hj : 0 ≤ j < Z.of_nat (length l)).
  { unfold j. destruct (Z.ltb_spec key 0); lia. }
  destruct (Z.leb_spec 0 j); [|lia].
  destruct (Z.ltb_spec j (Z.of_nat (length l))); [|lia]. simpl.
  destruct (lookup_lt_is_Some_2 l (Z.to_nat j)) as [x Hx]; [lia|].
  exists x. by rewrite Hx.
Qed.

Lemma list_getitem_out_of_range {A : Type} (l : list A) (key : Z) :
  key < - Z.of_nat (length l) ∨ Z.of_nat (length l) ≤ key →
  list_getitem l key = Raise IndexError.
Proof.
  intros Hkey. unfold list_getitem.
  destruct (Z.ltb_spec key 0).
  - destruct (Z.leb_spec 0 (key + Z.of_nat (length l))); [lia|done].
  - destruct (Z.leb_spec 0 key); [|lia].
    destruct (Z.ltb_spec key (Z.of_nat (length l))); [lia|done].
Qed.

Lemma comprehension_if_Ok {A : Type} (p : A → result bool) (q : A → bool) (l : list A) :
  (∀ x, x ∈ l → p x = Ok (q x)) →
  comprehension_if p l = Ok (filter (λ x, q x = true) l).
Proof.
  induction l as [|x l IH]; intros Hp; [done|].
  cbn [comprehension_if]. rewrite (Hp x) by (apply elem_of_cons; by left).
  rewrite IH by (intros y Hy; apply Hp, elem_of_cons; by right).
  simpl. rewrite filter_cons. by destruct (q x).
Qed.

Lemma comprehension_for_Ok {A B : Type}
    (f : A → result (list B)) (g : A → list B) (l : list A) :
  (∀ x, x ∈ l → f x = Ok (g x)) →
  comprehension_for f l = Ok (concat (g <$> l)).
Proof.
  induction l as [|x l IH]; intros Hf; [done|].
  cbn [comprehension_for]. rewrite (Hf x) by (apply elem_of_cons; by left).
  rewrite IH by (intros y Hy; apply Hf, elem_of_cons; by right). done.
Qed.

Lemma deref_result_Ok (h : heap) (f : Message.t → result bool) (q : Message.t → bool)
    (r : ref) :
  (∀ m, f m = Ok (q m)) → deref_result h f r = Ok (deref_bool h q r).
Proof. intros Hf. unfold deref_result, deref_bool. by destruct (h !! r). Qed.

Lemma where_elem_of (h : heap) (q : Message.t → bool) (refs : list ref) (r : ref) :
  r ∈ where_ h q refs ↔ r ∈ refs ∧ ∃ m, h !! r = Some m ∧ q m = true.
Proof.
  unfold where_. rewrite list_elem_of_filter. unfold deref_bool.
  destruct (h !! r) as [m|]; split.
  - intros [? ?]. eauto.
  - intros [? (m' & [= <-] & ?)]. done.
  - intros [? ?]. done.
  - intros [? (m' & ? & ?)]. done.
Qed.

Lemma filter_none {A : Type} (P : A → Prop) `{!∀ x, Decision (P x)} (l : list A) :
  Forall (λ x, ¬ P x) l → filter P l = [].
Proof.
  induction 1 as [|x l Hx Hl IH]; [done|]. by rewrite filter_cons_False.
Qed.

Lemma StronglySorted_filter {A : Type} (R : relation A)
    (P : A → Prop) `{!∀ x, Decision (P x)} (l : list A) :
  StronglySorted R l → StronglySorted R (filter P l).
Proof.
  induction 1 as [|x l Hs IH Hx]; [constructor|].
  rewrite filter_cons. destruct (decide (P x)); [|done].
  constructor; [done|].
  rewrite Forall_forall in Hx |- *. intros y [_ Hy]%list_elem_of_filter. auto.
Qed.

(** Three classes that split the elements of a list. *)
Section three_way.
Context {A : Type} (P Q R : A → Prop).
Context `{!∀ x, Decision (P x), !∀ x, Decision (Q x), !∀ x, Decision (R x)}.

Lemma three_way_perm (l : list A) :
  Forall (one_of_three P Q R) l → l ≡ₚ filter P l ++ filter Q l ++ filter R l.
Proof.
  induction 1 as [|x l Hx Hl IH]; [done|].
  rewrite !(filter_cons _ x).
  destruct Hx as [(HP & HQ & HR)|[(HP & HQ & HR)|(HP & HQ & HR)]];
    destruct (decide (P x)), (decide (Q x)), (decide (R x)); try done.
  - simpl. by rewrite <- IH.
  - simpl. rewrite <- Permutation_middle. by rewrite <- IH.
  - simpl. rewrite app_assoc, <- Permutation_middle, <- app_assoc. by rewrite <- IH.
Qed.

(** Along a list in which a [Q] is never followed by a [P], nor an [R] by a
    [P] or a [Q], the three classes come one after the other. *)
Lemma three_way_sorted (S : relation A) (l : list A) :
  (∀ a b, S a b → (Q a → ¬ P b) ∧ (R a → ¬ P b ∧ ¬ Q b)) →
  Forall (one_of_three P Q R) l → StronglySorted S l →
  l = filter P l ++ filter Q l ++ filter R l.
Proof.
  intros HS Hall Hs. induction Hs as [|x l Hs IH Hx]; [done|].
  apply Forall_cons in Hall as [H3 Hall]. specialize (IH Hall).
  rewrite !(filter_cons _ x).
  destruct H3 as [(HP & HQ & HR)|[(HP & HQ & HR)|(HP & HQ & HR)]];
    destruct (decide (P x)), (decide (Q x)), (decide (R x)); try done.
  - simpl. by rewrite <- IH.
  - assert (HnP : filter P l = []).
    { apply filter_none. eapply Forall_impl; [exact Hx|]. intros b Hb.
      destruct (HS x b Hb) as [HQP _]. auto. }
    rewrite HnP in IH |- *. simpl in *. by rewrite <- IH.
  - assert (HnP : filter P l = []).
    { apply filter_none. eapply Forall_impl; [exact Hx|]. intros b Hb.
      destruct (HS x b Hb) as [_ HRP]. by destruct (HRP HR). }
    assert (HnQ : filter Q l = []).
    { apply filter_none. eapply Forall_impl; [exact Hx|]. intros b Hb.
      destruct (HS x b Hb) as [_ HRP]. by destruct (HRP HR). }
    rewrite HnP, HnQ in IH |- *. simpl in *. by rewrite <- IH.
Qed.

End three_way.

(** ** Thread: queries *)

Lemma message_date_predicates (m : Message.t) (date : date_arg) (d : datetime.datetime) :
  Message._date_parse date = Ok d →
  Message.sent_before m date = Ok (earlier_than d m)
  ∧ Message.sent_between m date (Some date) = Ok (sent_at d m)
  ∧ Message.sent_after m date = Ok (later_than d m).
Proof.
  intros Hd.
  unfold Message.sent_before, Message.sent_after, Message.sent_between,
    earlier_than, sent_at, later_than.
  rewrite Hd. simpl. split_and!; f_equal.
  - destruct (Z.ltb_spec (Message.date_time m) d); symmetry;
      [apply bool_decide_eq_true|apply bool_decide_eq_false]; lia.
  - destruct (Z.leb_spec d (Message.date_time m)), (Z.leb_spec (Message.date_time m) d);
      simpl; symmetry;
      first [apply bool_decide_eq_true; lia | apply bool_decide_eq_false; lia].
  - rewrite Z.gtb_ltb.
    destruct (Z.ltb_spec d (Message.date_time m)); symmetry;
      [apply bool_decide_eq_true|apply bool_decide_eq_false]; lia.
Qed.

Lemma message_sent_between_parsed
    (m : Message.t) (start end_ : date_arg) (s e : datetime.datetime) :
  Message._date_parse start = Ok s → Message._date_parse end_ = Ok e →
  Message.sent_between m start (Some end_) = Ok (sent_within s e m).
Proof.
  intros Hs He. unfold Message.sent_between, sent_within. rewrite Hs, He. simpl.
  f_equal.
  destruct (Z.leb_spec s (Message.date_time m)), (Z.leb_spec (Message.date_time m) e);
    simpl; symmetry;
    first [apply bool_decide_eq_true; lia | apply bool_decide_eq_false; lia].
Qed.

Lemma thread_filter_Ok (h : heap) (f : Message.t → result bool) (q : Message.t → bool)
    (refs : list ref) :
  (∀ m, f m = Ok (q m)) →
  comprehension_if (deref_result h f) refs = Ok (where_ h q refs).
Proof.
  intros Hf. unfold where_.
  apply (comprehension_if_Ok _ (deref_bool h q)).
  intros r _. by apply deref_result_Ok.
Qed.

(** Dates never decrease along an ascending list. *)
Lemma ascending_dates (h : heap) (a b : ref) (ma mb : Message.t) :
  h !! a = Some ma → h !! b = Some mb → obj_lt h b a = false →
  Message.date_time ma ≤ Message.date_time mb.
Proof.
  intros Ha Hb. unfold obj_lt. rewrite Ha, Hb, lt_unfold.
  destruct (Z.eqb_spec (Message.date_time mb) (Message.date_time ma)); [lia|].
  rewrite Z.ltb_ge. lia.
Qed.

Lemma where_date_classes (h : heap) (d : datetime.datetime) (refs : list ref) :
  stored h refs →
  Forall (one_of_three
            (λ r, deref_bool h (earlier_than d) r = true)
            (λ r, deref_bool h (sent_at d) r = true)
            (λ r, deref_bool h (later_than d) r = true)) refs.
Proof.
  intros Hst. apply Forall_forall. intros r Hr.
  destruct (Hst r Hr) as [m Hm]. unfold one_of_three, deref_bool. rewrite Hm.
  unfold earlier_than, sent_at, later_than.
  rewrite !bool_decide_eq_true.
  destruct (Z.lt_trichotomy (Message.date_time m) d) as [H|[H|H]]; lia.
Qed.

(** X9. For a date that parses, the date filters of a thread return the
    messages sent before it, at it and after it; every message of the thread
    is in exactly one of the three lists, and when the thread is in ascending
    order the thread is the three lists put end to end. *)
Theorem thread_date_filters_split
    (h : heap) (t : Thread.t) (date : date_arg) (d : datetime.datetime) :
  Message._date_parse date = Ok d →
  stored h (Thread.messages t) →
  Thread.sent_before h t date = Ok (where_ h (earlier_than d) (Thread.messages t))
  ∧ Thread.sent_between h t date (Some date)
    = Ok (where_ h (sent_at d) (Thread.messages t))
  ∧ Thread.sent_after h t date = Ok (where_ h (later_than d) (Thread.messages t))
  ∧ Thread.messages t
    ≡ₚ where_ h (earlier_than d) (Thread.messages t)
       ++ where_ h (sent_at d) (Thread.messages t)
       ++ where_ h (later_than d) (Thread.messages t)
  ∧ (ascending (obj_lt h) (Thread.messages t) →
     Thread.messages t
     = where_ h (earlier_than d) (Thread.messages t)
       ++ where_ h (sent_at d) (Thread.messages t)
       ++ where_ h (later_than d) (Thread.messages t)).
Proof.
  intros Hd Hst.
  unfold Thread.sent_before, Thread.sent_between, Thread.sent_after.
  split_and!.
  - apply thread_filter_Ok. intros m. by apply message_date_predicates.
  - apply thread_filter_Ok. intros m. by apply message_date_predicates.
  - apply thread_filter_Ok. intros m. by apply message_date_predicates.
  - unfold where_. apply three_way_perm. by apply where_date_classes.
  - intros Hasc. unfold where_.
    apply (three_way_sorted _ _ _ (λ a b, obj_lt h b a = false));
      [|by apply where_date_classes|exact Hasc].
    intros a b Hab. unfold deref_bool, earlier_than, sent_at, later_than.
    destruct (h !! a) as [ma|] eqn:Ha; [|done].
    destruct (h !! b) as [mb|] eqn:Hb; [|done].
    pose proof (ascending_dates h a b ma mb Ha Hb Hab).
    rewrite !bool_decide_eq_true. lia.
Qed.

Lemma thread_date_filters_split_witness :
  Thread.sent_before fixtures.minutes_heap fixtures.thread5 (Tuple [2014; 3; 1; 12; 2])
  = Ok [0; 1]%nat
  ∧ Thread.sent_between fixtures.minutes_heap fixtures.thread5
      (Tuple [2014; 3; 1; 12; 2]) (Some (Tuple [2014; 3; 1; 12; 2]))
    = Ok [2%nat]
  ∧ Thread.sent_after fixtures.minutes_heap fixtures.thread5 (Tuple [2014; 3; 1; 12; 2])
    = Ok [3; 4]%nat.
Proof.
  assert (Hd : Message._date_parse (Tuple [2014; 3; 1; 12; 2])
               = Ok (fixtures.noon + 2 * 60 * datetime.US_PER_SECOND)) by reflexivity.
  assert (Hst : stored fixtures.minutes_heap (Thread.messages fixtures.thread5)).
  { apply stored_Forall. apply (bool_decide_unpack _). vm_compute. exact I. }
  destruct (thread_date_filters_split _ _ _ _ Hd Hst) as (H1 & H2 & H3 & _).
  split_and!.
  - etrans; [exact H1|]. vm_compute. reflexivity.
  - etrans; [exact H2|]. vm_compute. reflexivity.
  - etrans; [exact H3|]. vm_compute. reflexivity.
Defined.

Lemma ascending_filter (h : heap) (P : ref → Prop) `{!∀ r, Decision (P r)}
    (refs : list ref) :
  ascending (obj_lt h) refs → ascending (obj_lt h) (filter P refs).
Proof. apply StronglySorted_filter. Qed.

(** Sorting an ascending list changes nothing. *)
Lemma sorted_ascending_id (h : heap) (refs : list ref) :
  ascending (obj_lt h) refs → sorted (obj_lt h) refs = refs.
Proof. intros H. apply sorted_run. by apply StronglySorted_Sorted. Qed.

(** X10. [by] returns messages of the thread in the order of the thread,
    namely those whose author is the given name; when the thread is in
    ascending order, so is the result. *)
Theorem thread_by_in_order (h : heap) (t : Thread.t) (name : string) :
  sublist (Thread.by_ h t name) (Thread.messages t)
  ∧ (∀ r : ref,
       r ∈ Thread.by_ h t name ↔
       r ∈ Thread.messages t ∧ ∃ m, h !! r = Some m ∧ Message.author m = name)
  ∧ (ascending (obj_lt h) (Thread.messages t) →
     ascending (obj_lt h) (Thread.by_ h t name)).
Proof.
  unfold Thread.by_. split_and!.
  - apply sublist_filter.
  - intros r. rewrite list_elem_of_filter. unfold deref_bool, Message.sent_by.
    destruct (h !! r) as [m|]; split.
    + intros [?%String.eqb_eq ?]. eauto.
    + intros [? (m' & [= <-] & ?)]. split; [by apply String.eqb_eq|done].
    + intros [? ?]. done.
    + intros [? (m' & ? & ?)]. done.
  - by apply ascending_filter.
Qed.

Lemma thread_by_in_order_witness :
  ascending (obj_lt fixtures.minutes_heap)
    (Thread.by_ fixtures.minutes_heap fixtures.thread5 "Ann")
  ∧ Thread.by_ fixtures.minutes_heap fixtures.thread5 "Bob" = [].
Proof.
  split; [|reflexivity].
  apply (thread_by_in_order fixtures.minutes_heap fixtures.thread5 "Ann").
  apply (bool_decide_unpack _). vm_compute. exact I.
Defined.

(** X11. [search] on a thread returns the messages of the thread in which
    the string is found, each as often as the thread holds it; on a thread in
    ascending order they come in the order of the thread, the final sort
    changing nothing. *)
Theorem thread_search_finds_all
    (h : heap) (t : Thread.t) (s : string) (ignore_case : bool) :
  Thread.search h t s ignore_case
  ≡ₚ where_ h (mentions s ignore_case) (Thread.messages t)
  ∧ (ascending (obj_lt h) (Thread.messages t) →
     Thread.search h t s ignore_case
     = where_ h (mentions s ignore_case) (Thread.messages t)).
Proof.
  unfold Thread.search, where_, mentions. split.
  - apply sorted_perm.
  - intros Hasc. apply sorted_ascending_id. by apply ascending_filter.
Qed.

Lemma thread_search_finds_all_witness :
  Thread.search fixtures.minutes_heap fixtures.thread5 "TEXT" true = [0; 1; 2; 3; 4]%nat
  ∧ Thread.search fixtures.minutes_heap fixtures.thread5 "TEXT" false = [].
Proof.
  assert (Hasc : ascending (obj_lt fixtures.minutes_heap)
                   (Thread.messages fixtures.thread5)).
  { apply (bool_decide_unpack _). vm_compute. exact I. }
  split.
  - etrans; [exact (proj2 (thread_search_finds_all _ _ "TEXT" true) Hasc)|].
    vm_compute. reflexivity.
  - etrans; [exact (proj2 (thread_search_finds_all _ _ "TEXT" false) Hasc)|].
    vm_compute. reflexivity.
Defined.

(** X12. A thread holds as many messages as it was built from, merging adds
    as many as are given, and merging nothing into a thread in ascending
    order leaves its list as it is. *)
Theorem thread_len_after_merge
    (h : heap) (t : Thread.t) (people : list string) (ms : list ref) :
  Thread.__len__ (Thread.__init__ h people ms) = length ms
  ∧ Thread.__len__ (Thread._add_messages h t ms) = (Thread.__len__ t + length ms)%nat
  ∧ (ascending (obj_lt h) (Thread.messages t) →
     Thread.messages (Thread._add_messages h t []) = Thread.messages t).
Proof.
  unfold Thread.__len__. simpl. split_and!.
  - by rewrite sorted_perm.
  - by rewrite sorted_perm, length_app.
  - intros Hasc. rewrite app_nil_r. by apply sorted_ascending_id.
Qed.

Lemma thread_len_after_merge_witness :
  Thread.messages (Thread._add_messages fixtures.minutes_heap fixtures.thread5 [])
  = Thread.messages fixtures.thread5.
Proof.
  apply (thread_len_after_merge fixtures.minutes_heap fixtures.thread5 [] []).
  apply (bool_decide_unpack _). vm_compute. exact I.
Defined.

(** X13. Indexing a thread follows Python's rules, whatever the thread
    holds: a key from [-n] to [n - 1] returns the message at the position it
    denotes, any other integer raises [IndexError]. After renumbering a
    thread of distinct stored messages the message at position [p], counted
    from 0, carries number [p + 1]: the index is one less than the number. *)
Theorem thread_getitem_off_by_one (h : heap) (t : Thread.t) (key : Z) :
  (- Z.of_nat (Thread.__len__ t) ≤ key < Z.of_nat (Thread.__len__ t) →
   ∃ r : ref,
     Thread.__getitem__ t key = Ok r
     ∧ Thread.messages t !! position (Thread.__len__ t) key = Some r)
  ∧ (key < - Z.of_nat (Thread.__len__ t) ∨ Z.of_nat (Thread.__len__ t) ≤ key →
     Thread.__getitem__ t key = Raise IndexError)
  ∧ (NoDup (Thread.messages t) →
     stored h (Thread.messages t) →
     - Z.of_nat (Thread.__len__ t) ≤ key < Z.of_nat (Thread.__len__ t) →
     ∃ (r : ref) (m : Message.t),
       Thread.__getitem__ t key = Ok r
       ∧ Thread._renumber_messages t h !! r = Some m
       ∧ Message._num m = Z.of_nat (position (Thread.__len__ t) key) + 1).
Proof.
  unfold Thread.__getitem__, Thread.__len__. split_and!.
  - intros Hkey.
    destruct (list_getitem_in_range (Thread.messages t) key Hkey) as (r & Hr & Hget).
    by exists r.
  - apply list_getitem_out_of_range.
  - intros Hnd Hst Hkey.
    destruct (list_getitem_in_range (Thread.messages t) key Hkey) as (r & Hr & Hget).
    destruct (Hst r) as [m Hm]; [by eapply list_elem_of_lookup_2|].
    exists r, (with_num m (1 + Z.of_nat (position (length (Thread.messages t)) key))).
    split_and!; [done| |simpl; lia].
    unfold Thread._renumber_messages.
    destruct (renumber_loop_lookup (Thread.messages t) 1 h r) as [_ H].
    rewrite (H _ Hr) by by apply NoDup_not_in_drop. by rewrite Hm.
Qed.

Lemma thread_getitem_off_by_one_witness :
  Thread.__getitem__ fixtures.doubled_thread (-1) = Ok 0%nat
  ∧ Thread.__getitem__ fixtures.late_thread 2 = Raise IndexError
  ∧ ∃ (r : ref) (m : Message.t),
      Thread.__getitem__ fixtures.late_thread (-1) = Ok r
      ∧ Thread._renumber_messages fixtures.late_thread fixtures.minutes_heap !! r
        = Some m
      ∧ Message._num m = 2.
Proof.
  split_and!.
  - destruct (proj1 (thread_getitem_off_by_one fixtures.single_heap
                       fixtures.doubled_thread (-1)))
      as (r & Hget & Hpos).
    + change (Thread.__len__ fixtures.doubled_thread) with 2%nat. lia.
    + vm_compute in Hpos. injection Hpos as <-. exact Hget.
  - apply (proj1 (proj2 (thread_getitem_off_by_one fixtures.minutes_heap
                           fixtures.late_thread 2))).
    right. change (Thread.__len__ fixtures.late_thread) with 2%nat. lia.
  - apply (proj2 (proj2 (thread_getitem_off_by_one fixtures.minutes_heap
                           fixtures.late_thread (-1)))).
    + apply (bool_decide_unpack _). vm_compute. exact I.
    + apply stored_Forall. apply (bool_decide_unpack _). vm_compute. exact I.
    + change (Thread.__len__ fixtures.late_thread) with 2%nat. lia.
Defined.

(** ** Chat: counts and people *)

Lemma length_concat_sum (threads : list Thread.t) :
  length (all_refs threads) = sum_list_with Thread.__len__ threads.
Proof.
  unfold all_refs. induction threads as [|t threads IH]; [done|].
  cbn [fmap list_fmap concat sum_list_with]. rewrite length_app. by rewrite <- IH.
Qed.

Lemma all_refs_perm (threads1 threads2 : list Thread.t) :
  threads1 ≡ₚ threads2 → all_refs threads1 ≡ₚ all_refs threads2.
Proof.
  unfold all_refs.
  induction 1 as [|t l1 l2 _ IH|t1 t2 l|l1 l2 l3 _ IH1 _ IH2]; simpl.
  - done.
  - by rewrite IH.
  - rewrite !app_assoc. f_equiv. apply Permutation_app_comm.
  - by rewrite IH1.
Qed.

Lemma where_concat (h : heap) (q : Message.t → bool) (threads : list Thread.t) :
  concat ((λ t, where_ h q (Thread.messages t)) <$> threads)
  = where_ h q (all_refs threads).
Proof.
  unfold where_, all_refs. induction threads as [|t threads IH]; [done|].
  cbn [fmap list_fmap concat]. by rewrite filter_app, <- IH.
Qed.

(** X14. The cached total of a new chat is the sum of the sizes of its
    threads, and its length is their number; recounting sets the cached total
    of any chat to the sum of the sizes of its threads, which on a new chat
    changes nothing. *)
Theorem chat_counts (h : heap) (myname : string) (threads : list Thread.t) (c : Chat.t) :
  Chat.__len__ (Chat.__init__ h myname threads) = length threads
  ∧ Chat._total_messages (Chat.__init__ h myname threads)
    = sum_list_with Thread.__len__ threads
  ∧ Chat._total_messages (Chat._recount_messages h c)
    = sum_list_with Thread.__len__ (Chat.threads c)
  ∧ Chat._recount_messages h (Chat.__init__ h myname threads)
    = Chat.__init__ h myname threads.
Proof.
  split_and!.
  - unfold Chat.__len__. simpl. by rewrite sorted_key_reverse_perm.
  - simpl. unfold Chat.all_messages_of. rewrite sorted_perm.
    fold (all_refs (sorted_key_reverse Thread.__len__ threads)).
    by rewrite length_concat_sum, sorted_key_reverse_perm.
  - simpl. unfold Chat.all_messages, Chat.all_messages_of. rewrite sorted_perm.
    fold (all_refs (Chat.threads c)). apply length_concat_sum.
  - reflexivity.
Qed.

Lemma foldl_people (threads : list Thread.t) (known : gset string) (p : string) :
  p ∈ foldl (λ s thread, s ∪ list_to_set (Thread.people thread)) known threads
  ↔ p ∈ known ∨ ∃ t, t ∈ threads ∧ p ∈ Thread.people t.
Proof.
  revert known. induction threads as [|t threads IH]; intros known; simpl.
  - split; [by left|]. intros [?|(t & Ht & _)]; [done|by apply elem_of_nil in Ht].
  - rewrite IH, elem_of_union, elem_of_list_to_set. split.
    + intros [[?|?]|(t' & Ht' & ?)].
      * by left.
      * right. exists t. split; [by apply elem_of_cons; left|done].
      * right. exists t'. split; [by apply elem_of_cons; right|done].
    + intros [?|(t' & [->|Ht']%elem_of_cons & ?)].
      * left. by left.
      * left. by right.
      * right. eauto.
Qed.

(** X15. The people a new chat knows are its owner and the participants of
    its threads, and nobody else. *)
Theorem chat_all_people (h : heap) (myname : string) (threads : list Thread.t) (p : string) :
  p ∈ Chat._all_people (Chat.__init__ h myname threads)
  ↔ p = myname ∨ ∃ t, t ∈ threads ∧ p ∈ Thread.people t.
Proof.
  simpl. rewrite foldl_people, elem_of_singleton.
  split; (intros [?|(t & Ht & ?)]; [by left|right; exists t; split; [|done]]).
  - by rewrite <- (sorted_key_reverse_perm Thread.__len__ threads).
  - by rewrite (sorted_key_reverse_perm Thread.__len__ threads).
Qed.

(** ** Chat: lookup *)

(** X16. An integer key from [-n] to [n - 1], [n] the number of threads,
    returns the thread at the position it denotes, negative keys counting
    from the end; any other integer raises [IndexError], so every integer
    does on a chat without threads. *)
Theorem chat_getitem_int_bounds (c : Chat.t) (key : Z) :
  (- Z.of_nat (Chat.__len__ c) ≤ key < Z.of_nat (Chat.__len__ c) →
   ∃ t : Thread.t,
     Chat.threads c !! position (Chat.__len__ c) key = Some t
     ∧ Chat.__getitem__ c (PInt key) = Ok (Some t))
  ∧ (key < - Z.of_nat (Chat.__len__ c) ∨ Z.of_nat (Chat.__len__ c) ≤ key →
     Chat.__getitem__ c (PInt key) = Raise IndexError)
  ∧ (Chat.threads c = [] → Chat.__getitem__ c (PInt key) = Raise IndexError).
Proof.
  unfold Chat.__getitem__, Chat.__len__. split_and!.
  - intros Hkey.
    destruct (list_getitem_in_range (Chat.threads c) key Hkey) as (t & Ht & Hget).
    exists t. by rewrite Hget.
  - intros Hkey. by rewrite list_getitem_out_of_range.
  - intros Hnil. rewrite list_getitem_out_of_range; [done|].
    rewrite Hnil. simpl. lia.
Qed.

Lemma chat_getitem_int_bounds_witness :
  Chat.__getitem__ fixtures.chat (PInt (-1)) = Ok (Some fixtures.thread3')
  ∧ Chat.__getitem__ fixtures.chat (PInt 4) = Raise IndexError
  ∧ Chat.__getitem__ fixtures.chat (PInt (-5)) = Raise IndexError.
Proof.
  split_and!.
  - destruct (proj1 (chat_getitem_int_bounds fixtures.chat (-1))) as (t & Ht & Hget).
    + change (Chat.__len__ fixtures.chat) with 4%nat. lia.
    + vm_compute in Ht. injection Ht as <-. exact Hget.
  - apply (proj1 (proj2 (chat_getitem_int_bounds fixtures.chat 4))).
    change (Chat.__len__ fixtures.chat) with 4%nat. lia.
  - apply (proj1 (proj2 (chat_getitem_int_bounds fixtures.chat (-5)))).
    change (Chat.__len__ fixtures.chat) with 4%nat. lia.
Defined.

Lemma StronglySorted_lookup_lt {A : Type} (R : relation A) (l : list A)
    (i j : nat) (x y : A) :
  StronglySorted R l → l !! i = Some x → l !! j = Some y → (i < j)%nat → R x y.
Proof.
  intros Hs. revert i j. induction Hs as [|a l Hs IH Ha]; intros i j Hi Hj Hlt.
  - done.
  - destruct j as [|j]; [lia|]. simpl in Hj. destruct i as [|i].
    + injection Hi as <-. rewrite Forall_forall in Ha.
      apply Ha. by eapply list_elem_of_lookup_2.
    + simpl in Hi. apply (IH i j); [done..|lia].
Qed.

(** X17. In a new chat with at least one thread, index 0 is a thread with
    the most messages and index -1 a thread with the fewest. *)
Theorem chat_largest_first
    (h : heap) (myname : string) (threads : list Thread.t) :
  threads ≠ [] →
  ∃ first last_ : Thread.t,
    Chat.__getitem__ (Chat.__init__ h myname threads) (PInt 0) = Ok (Some first)
    ∧ Chat.__getitem__ (Chat.__init__ h myname threads) (PInt (-1)) = Ok (Some last_)
    ∧ first ∈ threads ∧ last_ ∈ threads
    ∧ ∀ t, t ∈ threads →
        (Thread.__len__ last_ ≤ Thread.__len__ t ≤ Thread.__len__ first)%nat.
Proof.
  intros Hne.
  pose proof (sorted_key_reverse_perm Thread.__len__ threads) as Hperm.
  pose proof (sorted_key_reverse_descending Thread.__len__ threads) as Hdesc.
  unfold Chat.__getitem__. cbn [Chat.__init__ Chat.threads].
  set (l := sorted_key_reverse Thread.__len__ threads) in *.
  assert (Hlen : (0 < length l)%nat).
  { rewrite Hperm. destruct threads; [done|simpl; lia]. }
  destruct (list_getitem_in_range l 0) as (first & Hf & Hgf); [lia|].
  destruct (list_getitem_in_range l (-1)) as (last_ & Hl & Hgl); [lia|].
  exists first, last_. rewrite Hgf, Hgl.
  split_and!; [done|done| | |].
  - rewrite <- Hperm. by eapply list_elem_of_lookup_2.
  - rewrite <- Hperm. by eapply list_elem_of_lookup_2.
  - intros t Ht. rewrite <- Hperm in Ht.
    apply list_elem_of_lookup_1 in Ht as [i Hi].
    change (position (length l) 0) with 0%nat in Hf.
    change (position (length l) (-1))
      with (Z.to_nat (-1 + Z.of_nat (length l))) in Hl.
    replace (Z.to_nat (-1 + Z.of_nat (length l))) with (pred (length l)) in Hl by lia.
    pose proof (lookup_lt_Some _ _ _ Hi) as Hi_lt.
    unfold descending_by in Hdesc. split.
    + destruct (decide (i = pred (length l))) as [->|Hne'].
      * rewrite Hl in Hi. by injection Hi as <-.
      * apply (StronglySorted_lookup_lt _ l i (pred (length l)) t last_ Hdesc);
          [done..|lia].
    + destruct (decide (i = 0%nat)) as [->|Hne'].
      * rewrite Hf in Hi. by injection Hi as <-.
      * apply (StronglySorted_lookup_lt _ l 0%nat i first t Hdesc); [done..|lia].
Qed.

Lemma chat_largest_first_witness :
  ∃ first last_ : Thread.t,
    Chat.__getitem__ fixtures.chat (PInt 0) = Ok (Some first)
    ∧ Chat.__getitem__ fixtures.chat (PInt (-1)) = Ok (Some last_)
    ∧ first ∈ [fixtures.thread5; fixtures.thread3; fixtures.thread3'; fixtures.thread8]
    ∧ last_ ∈ [fixtures.thread5; fixtures.thread3; fixtures.thread3'; fixtures.thread8]
    ∧ ∀ t, t ∈ [fixtures.thread5; fixtures.thread3; fixtures.thread3'; fixtures.thread8] →
        (Thread.__len__ last_ ≤ Thread.__len__ t ≤ Thread.__len__ first)%nat.
Proof.
  apply (chat_largest_first fixtures.minutes_heap "Ann"
           [fixtures.thread5; fixtures.thread3; fixtures.thread3'; fixtures.thread8]).
  discriminate.
Defined.

(** X18. Looking a thread of a new chat up by its label returns that thread
    when no other thread of the chat has the label. When several threads
    share a label, the lookup returns one of them that has the fewest
    messages. *)
Theorem chat_getitem_label_round_trip
    (h : heap) (myname : string) (threads : list Thread.t) (t : Thread.t) :
  t ∈ threads →
  ((∀ t', t' ∈ threads → label t' = label t → t' = t) →
   Chat.__getitem__ (Chat.__init__ h myname threads) (PStr (label t)) = Ok (Some t))
  ∧ ∃ found : Thread.t,
      Chat.__getitem__ (Chat.__init__ h myname threads) (PStr (label t))
      = Ok (Some found)
      ∧ found ∈ threads ∧ label found = label t
      ∧ ∀ t', t' ∈ threads → label t' = label t →
          (Thread.__len__ found ≤ Thread.__len__ t')%nat.
Proof.
  intros Ht.
  pose proof (sorted_key_reverse_perm Thread.__len__ threads) as Hperm.
  pose proof (sorted_key_reverse_descending Thread.__len__ threads) as Hdesc.
  unfold Chat.__getitem__. cbn [Chat.__init__ Chat._thread_dict].
  rewrite thread_dict_of_lookup.
  set (l := sorted_key_reverse Thread.__len__ threads) in *.
  set (same := filter (λ t0, label t0 = label t) l).
  assert (Hin : ∀ t', t' ∈ same ↔ label t' = label t ∧ t' ∈ threads).
  { intros t'. unfold same. by rewrite list_elem_of_filter, Hperm. }
  assert (Hsame : StronglySorted
                    (λ a b, (Thread.__len__ b ≤ Thread.__len__ a)%nat) same)
    by by apply StronglySorted_filter.
  destruct (last same) as [found|] eqn:Hlast.
  - apply last_Some in Hlast as [front Hfront].
    assert (Hfound : found ∈ same).
    { rewrite Hfront. apply elem_of_app. right. by apply list_elem_of_singleton. }
    apply Hin in Hfound as [Hlabel Hfound]. split.
    + intros Huniq. by rewrite (Huniq found Hfound Hlabel).
    + exists found. split_and!; [done..|].
      intros t' Ht' Hl'.
      assert (Hs : t' ∈ same) by by apply Hin.
      rewrite Hfront in Hs, Hsame.
      apply elem_of_app in Hs as [Hs| ->%list_elem_of_singleton]; [|done].
      apply StronglySorted_app in Hsame as (Hcross & _ & _).
      apply (Hcross t' found Hs). by apply list_elem_of_singleton.
  - apply last_None in Hlast. exfalso.
    assert (Hs : t ∈ same) by by apply Hin.
    rewrite Hlast in Hs. by apply elem_of_nil in Hs.
Qed.

Lemma chat_getitem_label_round_trip_witness :
  Chat.__getitem__ fixtures.chat (PStr (label fixtures.thread3)) = Ok (Some fixtures.thread3).
Proof.
  apply (chat_getitem_label_round_trip fixtures.minutes_heap "Ann"
           [fixtures.thread5; fixtures.thread3; fixtures.thread3'; fixtures.thread8]
           fixtures.thread3).
  - apply elem_of_cons. right. apply elem_of_cons. by left.
  - intros t' Ht' Hl.
    repeat (apply elem_of_cons in Ht' as [->|Ht']); [..|by apply elem_of_nil in Ht'];
      first [reflexivity | vm_compute in Hl; discriminate].
Defined.

(** ** Chat: queries *)

Lemma stored_subseteq (h : heap) (refs refs' : list ref) :
  (∀ r, r ∈ refs' → r ∈ refs) → stored h refs → stored h refs'.
Proof. intros Hsub Hst r Hr. apply Hst, Hsub, Hr. Qed.

Lemma pairwise_comparable_subseteq (h : heap) (refs refs' : list ref) :
  (∀ r, r ∈ refs' → r ∈ refs) →
  pairwise_comparable h refs → pairwise_comparable h refs'.
Proof.
  intros Hsub Hpc r1 r2 m1 m2 H1 H2. apply Hpc; by apply Hsub.
Qed.

Lemma where_subseteq (h : heap) (q : Message.t → bool) (refs : list ref) (r : ref) :
  r ∈ where_ h q refs → r ∈ refs.
Proof. unfold where_. by intros [_ ?]%list_elem_of_filter. Qed.

(** What a chat query returns when the threads contribute the references
    satisfying [q]: those references, sorted. *)
Lemma sorted_where (h : heap) (q : Message.t → bool) (refs : list ref) :
  sorted (obj_lt h) (where_ h q refs) ≡ₚ where_ h q refs
  ∧ (stored h refs → pairwise_comparable h refs →
     ascending (obj_lt h) (sorted (obj_lt h) (where_ h q refs))).
Proof.
  split; [apply sorted_perm|]. intros Hst Hpc.
  apply sorted_refs_ascending.
  - eapply stored_subseteq; [apply where_subseteq|done].
  - eapply pairwise_comparable_subseteq; [apply where_subseteq|done].
Qed.

Lemma by_where (h : heap) (t : Thread.t) (name : string) :
  Thread.by_ h t name = where_ h (written_by name) (Thread.messages t).
Proof.
  unfold Thread.by_, where_. apply list_filter_iff. intros r.
  unfold deref_bool, written_by, Message.sent_by.
  destruct (h !! r) as [m|]; [|done].
  by rewrite String.eqb_eq, bool_decide_eq_true.
Qed.

Lemma comprehension_thread_filters
    (h : heap) (f : Message.t → result bool) (q : Message.t → bool)
    (threads : list Thread.t) :
  (∀ m, f m = Ok (q m)) →
  comprehension_for
    (λ thread, comprehension_if (deref_result h f) (Thread.messages thread)) threads
  = Ok (where_ h q (all_refs threads)).
Proof.
  intros Hf. rewrite <- where_concat.
  apply (comprehension_for_Ok _ (λ t, where_ h q (Thread.messages t))).
  intros t _. by apply thread_filter_Ok.
Qed.

Ltac enumerate H :=
  repeat (apply elem_of_cons in H as [->|H]); [..|by apply elem_of_nil in H].

(** X19. [all_messages] returns every message of every thread, each as often
    as the threads hold it; when any two of them are in comparable
    sequence-number range, the list is in ascending order. *)
Theorem chat_all_messages_sorted (h : heap) (c : Chat.t) :
  Chat.all_messages h c ≡ₚ all_refs (Chat.threads c)
  ∧ (stored h (all_refs (Chat.threads c)) →
     pairwise_comparable h (all_refs (Chat.threads c)) →
     ascending (obj_lt h) (Chat.all_messages h c)).
Proof.
  unfold Chat.all_messages, Chat.all_messages_of.
  fold (all_refs (Chat.threads c)). split; [apply sorted_perm|].
  apply sorted_refs_ascending.
Qed.

Lemma chat_all_messages_sorted_witness :
  Chat.all_messages fixtures.minutes_heap fixtures.duo = [1; 3; 5; 6; 7]%nat
  ∧ ascending (obj_lt fixtures.minutes_heap)
      (Chat.all_messages fixtures.minutes_heap fixtures.duo).
Proof.
  split; [vm_compute; reflexivity|].
  apply (chat_all_messages_sorted fixtures.minutes_heap fixtures.duo).
  - intros r Hr. change (all_refs (Chat.threads fixtures.duo)) with [5; 6; 7; 1; 3]%nat in Hr.
    enumerate Hr; vm_compute; eauto.
  - intros r1 r2 m1 m2 H1 H2 L1 L2 Hd.
    change (all_refs (Chat.threads fixtures.duo)) with [5; 6; 7; 1; 3]%nat in H1, H2.
    enumerate H1; enumerate H2;
      vm_compute in L1, L2; simplify_eq; vm_compute; discriminate.
Defined.

(** X20. [all_from] returns the messages of all threads whose author is the
    given name, each as often as the threads hold it, and nothing else; when
    any two messages of the chat are in comparable sequence-number range, the
    list is in ascending order. *)
Theorem chat_all_from_author (h : heap) (c : Chat.t) (name : string) :
  Chat.all_from h c name ≡ₚ where_ h (written_by name) (all_refs (Chat.threads c))
  ∧ (stored h (all_refs (Chat.threads c)) →
     pairwise_comparable h (all_refs (Chat.threads c)) →
     ascending (obj_lt h) (Chat.all_from h c name)).
Proof.
  unfold Chat.all_from.
  assert (concat ((λ thread, Thread.by_ h thread name) <$> Chat.threads c)
          = where_ h (written_by name) (all_refs (Chat.threads c))) as ->.
  { rewrite <- where_concat. f_equal. apply list_fmap_ext. intros _ t _. apply by_where. }
  apply sorted_where.
Qed.

Lemma chat_all_from_author_witness :
  Chat.all_from fixtures.minutes_heap fixtures.duo "Ann" = [1; 3; 5; 6; 7]%nat
  ∧ ascending (obj_lt fixtures.minutes_heap)
      (Chat.all_from fixtures.minutes_heap fixtures.duo "Ann").
Proof.
  split; [vm_compute; reflexivity|].
  apply (chat_all_from_author fixtures.minutes_heap fixtures.duo "Ann").
  - intros r Hr. change (all_refs (Chat.threads fixtures.duo)) with [5; 6; 7; 1; 3]%nat in Hr.
    enumerate Hr; vm_compute; eauto.
  - intros r1 r2 m1 m2 H1 H2 L1 L2 Hd.
    change (all_refs (Chat.threads fixtures.duo)) with [5; 6; 7; 1; 3]%nat in H1, H2.
    enumerate H1; enumerate H2;
      vm_compute in L1, L2; simplify_eq; vm_compute; discriminate.
Defined.

(** X21. [search] on a chat returns the messages of all threads in which the
    string is found, each as often as the threads hold it, and nothing else;
    when any two messages of the chat are in comparable sequence-number
    range, the list is in ascending order. *)
Theorem chat_search_finds_all
    (h : heap) (c : Chat.t) (s : string) (ignore_case : bool) :
  Chat.search h c s ignore_case
  ≡ₚ where_ h (mentions s ignore_case) (all_refs (Chat.threads c))
  ∧ (stored h (all_refs (Chat.threads c)) →
     pairwise_comparable h (all_refs (Chat.threads c)) →
     ascending (obj_lt h) (Chat.search h c s ignore_case)).
Proof.
  unfold Chat.search.
  assert (Hperm : concat ((λ thread, Thread.search h thread s ignore_case)
                          <$> Chat.threads c)
                  ≡ₚ where_ h (mentions s ignore_case) (all_refs (Chat.threads c))).
  { rewrite <- where_concat. induction (Chat.threads c) as [|t l IH]; [done|].
    cbn [fmap list_fmap concat]. f_equiv; [|exact IH].
    unfold Thread.search, where_, mentions. apply sorted_perm. }
  split; [by rewrite sorted_perm|].
  intros Hst Hpc. apply sorted_refs_ascending.
  - intros r Hr. rewrite Hperm in Hr. apply where_subseteq in Hr. by apply Hst.
  - eapply pairwise_comparable_subseteq; [|exact Hpc].
    intros r Hr. rewrite Hperm in Hr. by apply where_subseteq in Hr.
Qed.

Lemma chat_search_finds_all_witness :
  Chat.search fixtures.minutes_heap fixtures.duo "ex" false = [1; 3; 5; 6; 7]%nat
  ∧ ascending (obj_lt fixtures.minutes_heap)
      (Chat.search fixtures.minutes_heap fixtures.duo "ex" false).
Proof.
  split; [vm_compute; reflexivity|].
  apply (chat_search_finds_all fixtures.minutes_heap fixtures.duo "ex" false).
  - intros r Hr. change (all_refs (Chat.threads fixtures.duo)) with [5; 6; 7; 1; 3]%nat in Hr.
    enumerate Hr; vm_compute; eauto.
  - intros r1 r2 m1 m2 H1 H2 L1 L2 Hd.
    change (all_refs (Chat.threads fixtures.duo)) with [5; 6; 7; 1; 3]%nat in H1, H2.
    enumerate H1; enumerate H2;
      vm_compute in L1, L2; simplify_eq; vm_compute; discriminate.
Defined.

(** ** Chat: date filters *)

Lemma message_sent_between_default (m : Message.t) (start : date_arg) (s : datetime.datetime) :
  Message._date_parse start = Ok s →
  datetime.in_range (s + 24 * 3600 * 1000000) = true →
  Message.sent_between m start None = Ok (sent_within s (s + 24 * 3600 * 1000000) m).
Proof.
  intros Hs Hr. unfold Message.sent_between, sent_within. rewrite Hs. simpl.
  unfold datetime.add, datetime.timedelta_days, datetime.US_PER_DAY,
    datetime.US_PER_SECOND.
  replace (s + 1 * (86400 * 1000000)) with (s + 24 * 3600 * 1000000) by lia.
  rewrite Hr. simpl. f_equal.
  destruct (Z.leb_spec s (Message.date_time m)),
    (Z.leb_spec (Message.date_time m) (s + 24 * 3600 * 1000000));
    simpl; symmetry;
    first [apply bool_decide_eq_true; lia | apply bool_decide_eq_false; lia].
Qed.

(** X22. For a date that parses, the date filters of a chat return the
    messages of all threads sent before it, at it and after it, each as often
    as the threads hold it; together the three lists hold every message of
    the chat once for each time a thread holds it. *)
Theorem chat_date_filters_split
    (h : heap) (c : Chat.t) (date : date_arg) (d : datetime.datetime) :
  Message._date_parse date = Ok d →
  stored h (all_refs (Chat.threads c)) →
  ∃ before at_ after : list ref,
    Chat.sent_before h c date = Ok before
    ∧ Chat.sent_between h c date (Some date) = Ok at_
    ∧ Chat.sent_after h c date = Ok after
    ∧ before ≡ₚ where_ h (earlier_than d) (all_refs (Chat.threads c))
    ∧ at_ ≡ₚ where_ h (sent_at d) (all_refs (Chat.threads c))
    ∧ after ≡ₚ where_ h (later_than d) (all_refs (Chat.threads c))
    ∧ Chat.all_messages h c ≡ₚ before ++ at_ ++ after.
Proof.
  intros Hd Hst.
  exists (sorted (obj_lt h) (where_ h (earlier_than d) (all_refs (Chat.threads c)))),
    (sorted (obj_lt h) (where_ h (sent_at d) (all_refs (Chat.threads c)))),
    (sorted (obj_lt h) (where_ h (later_than d) (all_refs (Chat.threads c)))).
  unfold Chat.sent_before, Chat.sent_between, Chat.sent_after,
    Thread.sent_before, Thread.sent_between, Thread.sent_after.
  rewrite (comprehension_thread_filters h _ (earlier_than d))
    by (intros m; by apply message_date_predicates).
  rewrite (comprehension_thread_filters h _ (sent_at d))
    by (intros m; by apply message_date_predicates).
  rewrite (comprehension_thread_filters h _ (later_than d))
    by (intros m; by apply message_date_predicates).
  split_and!; [done|done|done|apply sorted_perm..|].
  rewrite !sorted_perm.
  unfold Chat.all_messages, Chat.all_messages_of.
  fold (all_refs (Chat.threads c)). rewrite sorted_perm.
  unfold where_. apply three_way_perm. by apply where_date_classes.
Qed.

Lemma chat_date_filters_split_witness :
  ∃ before at_ after : list ref,
    Chat.sent_before fixtures.minutes_heap fixtures.duo (Tuple [2014; 3; 1; 12; 5])
    = Ok before
    ∧ Chat.sent_between fixtures.minutes_heap fixtures.duo (Tuple [2014; 3; 1; 12; 5])
        (Some (Tuple [2014; 3; 1; 12; 5])) = Ok at_
    ∧ Chat.sent_after fixtures.minutes_heap fixtures.duo (Tuple [2014; 3; 1; 12; 5])
      = Ok after
    ∧ before ≡ₚ [1; 3]%nat ∧ at_ ≡ₚ [5%nat] ∧ after ≡ₚ [6; 7]%nat
    ∧ Chat.all_messages fixtures.minutes_heap fixtures.duo ≡ₚ before ++ at_ ++ after.
Proof.
  assert (Hd : Message._date_parse (Tuple [2014; 3; 1; 12; 5])
               = Ok (fixtures.noon + 5 * 60 * datetime.US_PER_SECOND)) by reflexivity.
  assert (Hst : stored fixtures.minutes_heap (all_refs (Chat.threads fixtures.duo))).
  { apply stored_Forall. apply (bool_decide_unpack _). vm_compute. exact I. }
  destruct (chat_date_filters_split _ _ _ _ Hd Hst)
    as (before & at_ & after & H1 & H2 & H3 & P1 & P2 & P3 & Pall).
  exists before, at_, after. split_and!; done.
Defined.

(** X23. [sent_between] on a chat returns the messages of all threads sent
    from [start] to [end], both included; with [end] omitted, and [start]
    plus 24 hours still a date, the window ends 24 hours after [start]; an
    [end] earlier than [start] gives the empty list, the two are not
    swapped. *)
Theorem chat_sent_between_window
    (h : heap) (c : Chat.t) (start : date_arg) (s : datetime.datetime) :
  Message._date_parse start = Ok s →
  (∀ (end_ : date_arg) (e : datetime.datetime),
     Message._date_parse end_ = Ok e →
     ∃ found : list ref,
       Chat.sent_between h c start (Some end_) = Ok found
       ∧ found ≡ₚ where_ h (sent_within s e) (all_refs (Chat.threads c))
       ∧ (e < s → found = []))
  ∧ (datetime.in_range (s + 24 * 3600 * 1000000) = true →
     ∃ found : list ref,
       Chat.sent_between h c start None = Ok found
       ∧ found
         ≡ₚ where_ h (sent_within s (s + 24 * 3600 * 1000000))
              (all_refs (Chat.threads c))).
Proof.
  intros Hs. unfold Chat.sent_between, Thread.sent_between. split.
  - intros end_ e He.
    rewrite (comprehension_thread_filters h _ (sent_within s e))
      by (intros m; by apply message_sent_between_parsed).
    eexists. split; [done|]. split; [apply sorted_perm|].
    intros Hlt.
    assert (where_ h (sent_within s e) (all_refs (Chat.threads c)) = []) as ->; [|done].
    unfold where_. apply filter_none. apply Forall_forall. intros r _.
    unfold deref_bool, sent_within. destruct (h !! r); [|done].
    rewrite bool_decide_eq_true. lia.
  - intros Hr.
    rewrite (comprehension_thread_filters h _ (sent_within s (s + 24 * 3600 * 1000000)))
      by (intros m; by apply message_sent_between_default).
    eexists. split; [done|apply sorted_perm].
Qed.

Lemma chat_sent_between_window_witness :
  ∃ found : list ref,
    Chat.sent_between fixtures.minutes_heap fixtures.duo (Tuple [2014; 3; 1; 12; 3]) None
    = Ok found
    ∧ found ≡ₚ [5; 6; 7; 3]%nat.
Proof.
  assert (Hs : Message._date_parse (Tuple [2014; 3; 1; 12; 3])
               = Ok (fixtures.noon + 3 * 60 * datetime.US_PER_SECOND)) by reflexivity.
  destruct (proj2 (chat_sent_between_window fixtures.minutes_heap fixtures.duo _ _ Hs))
    as (found & Hfound & Hperm); [reflexivity|].
  exists found. split; [exact Hfound|exact Hperm].
Defined.

Lemma comprehension_if_all_raise
    (h : heap) (f : Message.t → result bool) (e : exn) (refs : list ref) :
  (∀ m, f m = Raise e) → stored h refs →
  comprehension_if (deref_result h f) refs
  = match refs with [] => Ok [] | _ :: _ => Raise e end.
Proof.
  intros Hf Hst. destruct refs as [|r refs]; [done|].
  assert (Hr : deref_result h f r = Raise e).
  { unfold deref_result.
    destruct (Hst r) as [m Hm]; [apply elem_of_cons; by left|]. by rewrite Hm. }
  cbn [comprehension_if]. by rewrite Hr.
Qed.

Lemma comprehension_for_all_raise
    (h : heap) (f : Message.t → result bool) (e : exn) (threads : list Thread.t) :
  (∀ m, f m = Raise e) → stored h (all_refs threads) →
  comprehension_for
    (λ thread, comprehension_if (deref_result h f) (Thread.messages thread)) threads
  = match all_refs threads with [] => Ok [] | _ :: _ => Raise e end.
Proof.
  intros Hf. unfold all_refs.
  induction threads as [|t threads IH]; intros Hst; [done|].
  cbn [fmap list_fmap concat] in Hst |- *. cbn [comprehension_for].
  rewrite (comprehension_if_all_raise h f e (Thread.messages t)); [|done|].
  - destruct (Thread.messages t) as [|r refs]; [|done]. simpl.
    rewrite IH by done. by destruct (concat _).
  - eapply stored_subseteq; [|exact Hst]. intros r Hr. apply elem_of_app. by left.
Qed.

(** X24. A date that does not parse is noticed only when a message is
    tested against it: on a chat whose threads hold no message the date
    filters return the empty list, on any other chat they raise the exception
    of the parse. *)
Theorem chat_date_error
    (h : heap) (c : Chat.t) (bad : date_arg) (e : exn) :
  Message._date_parse bad = Raise e →
  stored h (all_refs (Chat.threads c)) →
  (all_refs (Chat.threads c) = [] →
   Chat.sent_before h c bad = Ok []
   ∧ Chat.sent_after h c bad = Ok []
   ∧ Chat.sent_between h c bad None = Ok [])
  ∧ (all_refs (Chat.threads c) ≠ [] →
     Chat.sent_before h c bad = Raise e
     ∧ Chat.sent_after h c bad = Raise e
     ∧ Chat.sent_between h c bad None = Raise e).
Proof.
  intros Hbad Hst.
  assert (H1 : ∀ m, Message.sent_before m bad = Raise e)
    by (intros m; unfold Message.sent_before; by rewrite Hbad).
  assert (H2 : ∀ m, Message.sent_after m bad = Raise e)
    by (intros m; unfold Message.sent_after; by rewrite Hbad).
  assert (H3 : ∀ m, Message.sent_between m bad None = Raise e)
    by (intros m; unfold Message.sent_between; by rewrite Hbad).
  unfold Chat.sent_before, Chat.sent_after, Chat.sent_between,
    Thread.sent_before, Thread.sent_after, Thread.sent_between.
  rewrite (comprehension_for_all_raise h _ e _ H1 Hst),
    (comprehension_for_all_raise h _ e _ H2 Hst),
    (comprehension_for_all_raise h _ e _ H3 Hst).
  split; intros Hall; destruct (all_refs (Chat.threads c)); done.
Qed.

Lemma chat_date_error_witness :
  Chat.sent_before fixtures.minutes_heap fixtures.duo (Tuple [2014; 13; 1])
  = Raise ValueError
  ∧ Chat.sent_before fixtures.minutes_heap
      (Chat.__init__ fixtures.minutes_heap "Ann" []) (Tuple [2014; 13; 1])
    = Ok [].
Proof.
  split.
  - apply (chat_date_error fixtures.minutes_heap fixtures.duo (Tuple [2014; 13; 1])
             ValueError); [reflexivity| |].
    + apply stored_Forall. apply (bool_decide_unpack _). vm_compute. exact I.
    + change (all_refs (Chat.threads fixtures.duo)) with [5; 6; 7; 1; 3]%nat. discriminate.
  - apply (chat_date_error fixtures.minutes_heap
             (Chat.__init__ fixtures.minutes_heap "Ann" []) (Tuple [2014; 13; 1])
             ValueError); [reflexivity| |reflexivity].
    intros r Hr. by apply elem_of_nil in Hr.
Defined.

(** ** Thread: renumbering and order *)

Lemma StronglySorted_of_lookup {A : Type} (R : relation A) (l : list A) :
  (∀ (i j : nat) (x y : A),
     l !! i = Some x → l !! j = Some y → (i < j)%nat → R x y) →
  StronglySorted R l.
Proof.
  induction l as [|a l IH]; intros H; constructor.
  - apply IH. intros i j x y Hi Hj Hlt. apply (H (S i) (S j)); [done..|lia].
  - apply Forall_forall. intros y [j Hj]%list_elem_of_lookup_1.
    apply (H 0%nat (S j)); [done..|lia].
Qed.

Lemma renumbered_lookup (h : heap) (refs : list ref) (i : nat) (r : ref) (m : Message.t) :
  NoDup refs → refs !! i = Some r → h !! r = Some m →
  Thread.renumber_loop 1 refs h !! r = Some (with_num m (Z.of_nat i + 1)).
Proof.
  intros Hnd Hi Hm.
  destruct (renumber_loop_lookup refs 1 h r) as [_ H].
  rewrite (H i Hi) by by apply NoDup_not_in_drop.
  rewrite Hm. simpl. do 2 f_equal. lia.
Qed.

(** X25. Renumbering a thread that is in ascending order, holds distinct
    stored messages and has at most 9001 of them, leaves it in ascending
    order under the new numbers and puts any two of its messages in
    comparable sequence-number range, so that sorting it again changes
    nothing. *)
Theorem renumber_keeps_order (h : heap) (t : Thread.t) :
  NoDup (Thread.messages t) →
  stored h (Thread.messages t) →
  ascending (obj_lt h) (Thread.messages t) →
  Z.of_nat (Thread.__len__ t) ≤ 9001 →
  pairwise_comparable (Thread._renumber_messages t h) (Thread.messages t)
  ∧ ascending (obj_lt (Thread._renumber_messages t h)) (Thread.messages t)
  ∧ sorted (obj_lt (Thread._renumber_messages t h)) (Thread.messages t)
    = Thread.messages t.
Proof.
  intros Hnd Hst Hasc Hlen. unfold Thread._renumber_messages, Thread.__len__ in *.
  set (refs := Thread.messages t) in *.
  set (h' := Thread.renumber_loop 1 refs h).
  assert (Hpc : pairwise_comparable h' refs).
  { intros r1 r2 m1 m2 [i Hi]%list_elem_of_lookup_1 [j Hj]%list_elem_of_lookup_1 H1 H2 _.
    destruct (Hst r1) as [n1 Hn1]; [by eapply list_elem_of_lookup_2|].
    destruct (Hst r2) as [n2 Hn2]; [by eapply list_elem_of_lookup_2|].
    unfold h' in H1, H2.
    rewrite (renumbered_lookup h refs i r1 n1 Hnd Hi Hn1) in H1.
    rewrite (renumbered_lookup h refs j r2 n2 Hnd Hj Hn2) in H2.
    injection H1 as <-. injection H2 as <-. simpl.
    apply lookup_lt_Some in Hi, Hj. lia. }
  assert (Hasc' : ascending (obj_lt h') refs).
  { apply StronglySorted_of_lookup. intros i j r1 r2 Hi Hj Hlt.
    destruct (Hst r1) as [n1 Hn1]; [by eapply list_elem_of_lookup_2|].
    destruct (Hst r2) as [n2 Hn2]; [by eapply list_elem_of_lookup_2|].
    pose proof (StronglySorted_lookup_lt _ refs i j r1 r2 Hasc Hi Hj Hlt) as Hold.
    pose proof (ascending_dates h r1 r2 n1 n2 Hn1 Hn2 Hold) as Hdates.
    unfold obj_lt, h'.
    rewrite (renumbered_lookup h refs j r2 n2 Hnd Hj Hn2),
      (renumbered_lookup h refs i r1 n1 Hnd Hi Hn1).
    rewrite lt_unfold. simpl.
    destruct (Z.eqb_spec (Message.date_time n2) (Message.date_time n1)).
    - destruct (Z.abs (Z.of_nat j + 1 - (Z.of_nat i + 1)) >? 9000); [done|].
      apply Z.ltb_ge. lia.
    - apply Z.ltb_ge. lia. }
  split_and!; [done|done|by apply sorted_ascending_id].
Qed.

Lemma renumber_keeps_order_witness :
  sorted (obj_lt (Thread._renumber_messages fixtures.late_thread fixtures.minutes_heap))
    (Thread.messages fixtures.late_thread)
  = Thread.messages fixtures.late_thread.
Proof.
  apply (renumber_keeps_order fixtures.minutes_heap fixtures.late_thread).
  - apply (bool_decide_unpack _). vm_compute. exact I.
  - apply stored_Forall. apply (bool_decide_unpack _). vm_compute. exact I.
  - apply (bool_decide_unpack _). vm_compute. exact I.
  - change (Thread.__len__ fixtures.late_thread) with 2%nat. lia.
Defined.

(** * parser.py *)

(** A loop over a list through [__getitem__] visits its items in order, given
    fuel for one round more than there are items. *)
Lemma iterate_from {A : Type} (fuel : nat) (l : list A) (k : nat) :
  (k ≤ length l)%nat → (length l - k < fuel)%nat →
  iterate fuel (list_getitem l) (Z.of_nat k) = Some (Ok (drop k l)).
Proof.
  revert k. induction fuel as [|fuel IH]; intros k Hk Hfuel; [lia|].
  cbn [iterate]. destruct (decide (k = length l)) as [->|Hne].
  - rewrite list_getitem_out_of_range by lia. by rewrite drop_all.
  - destruct (lookup_lt_is_Some_2 l k) as [x Hx]; [lia|].
    rewrite (list_getitem_position l k x Hx).
    replace (Z.of_nat k + 1) with (Z.of_nat (S k)) by lia.
    rewrite IH by lia. simpl. by rewrite (drop_S l x k Hx).
Qed.

Lemma iterate_list {A : Type} (fuel : nat) (l : list A) :
  (length l < fuel)%nat → iterate fuel (list_getitem l) 0 = Some (Ok l).
Proof. intros H. apply (iterate_from fuel l 0); lia. Qed.

Lemma collect_Ok {A B : Type} (f : A → outcome (list B)) (g : A → list B) (l : list A) :
  (∀ x, x ∈ l → f x = Some (Ok (g x))) →
  collect f l = Some (Ok (concat (g <$> l))).
Proof.
  induction l as [|x l IH]; intros Hf; [done|].
  cbn [collect]. rewrite (Hf x) by (apply elem_of_cons; by left).
  rewrite IH by (intros y Hy; apply Hf, elem_of_cons; by right). done.
Qed.

Lemma elem_of_concat_fmap {A B : Type} (g : A → list B) (l : list A) (y : B) :
  y ∈ concat (g <$> l) ↔ ∃ x, x ∈ l ∧ y ∈ g x.
Proof.
  induction l as [|a l IH]; cbn [fmap list_fmap concat].
  - split; [by intros ?%elem_of_nil|]. intros (x & ?%elem_of_nil & _). done.
  - rewrite elem_of_app, IH. split.
    + intros [?|(x & ? & ?)].
      * exists a. split; [apply elem_of_cons; by left|done].
      * exists x. split; [apply elem_of_cons; by right|done].
    + intros (x & [->|?]%elem_of_cons & ?); [by left|right; eauto].
Qed.

Lemma concat_listed (name : string) (threads : list parser.Thread.t) :
  concat ((λ t : parser.Thread.t,
             if decide (name ∈ parser.Thread.people t)
             then filter (λ x, parser.Message.sender x = name) (parser.Thread.messages t)
             else []) <$> threads)
  = filter (λ x, parser.Message.sender x = name)
      (concat (parser.Thread.messages
               <$> filter (λ t, name ∈ parser.Thread.people t) threads)).
Proof.
  induction threads as [|t threads IH]; [done|].
  cbn [fmap list_fmap concat]. rewrite filter_cons.
  destruct (decide (name ∈ parser.Thread.people t)).
  - cbn [fmap list_fmap concat]. by rewrite filter_app, IH.
  - by rewrite IH.
Qed.

(** X26. Given fuel for its loops, [FbChat.by] returns the list obtained from
    the threads that list the name among their people, taken in the order of
    the chat, by putting their messages end to end and keeping, in that
    order and as often as they occur, the messages whose sender is the name.
    So a message the name sent in a thread that does not list it is left
    out, and a name no thread lists gets the empty list. *)
Theorem parser_by_listed_threads (fuel : nat) (c : parser.FbChat.t) (name : string) :
  enough_fuel fuel c →
  parser.FbChat.by_ fuel c name
  = Some (Ok (filter (λ m, parser.Message.sender m = name)
                (concat (parser.Thread.messages
                         <$> filter (λ t, name ∈ parser.Thread.people t)
                               (parser.FbChat.threads c)))))
  ∧ (∀ (found : list parser.Message.t) (m : parser.Message.t),
       parser.FbChat.by_ fuel c name = Some (Ok found) →
       m ∈ found ↔
       ∃ t, t ∈ parser.FbChat.threads c ∧ name ∈ parser.Thread.people t
            ∧ m ∈ parser.Thread.messages t ∧ parser.Message.sender m = name)
  ∧ ((∀ t, t ∈ parser.FbChat.threads c → name ∉ parser.Thread.people t) →
     parser.FbChat.by_ fuel c name = Some (Ok [])).
Proof.
  intros [Hc Ht].
  assert (Hby : parser.FbChat.by_ fuel c name
                = Some (Ok (filter (λ m, parser.Message.sender m = name)
                              (concat (parser.Thread.messages
                                       <$> filter (λ t, name ∈ parser.Thread.people t)
                                             (parser.FbChat.threads c)))))).
  { rewrite <- concat_listed.
    unfold parser.FbChat.by_, parser.FbChat.__getitem__.
    rewrite iterate_list by done. cbn [outcome_bind].
    apply (collect_Ok _ (λ t : parser.Thread.t,
             if decide (name ∈ parser.Thread.people t)
             then filter (λ x, parser.Message.sender x = name)
                    (parser.Thread.messages t)
             else [])).
    intros t Hin. destruct (decide (name ∈ parser.Thread.people t)); [|done].
    unfold parser.Thread.by_, parser.Thread.__getitem__.
    by rewrite iterate_list by by apply Ht. }
  split_and!; [exact Hby| |].
  - intros found m. rewrite Hby. intros [= <-].
    rewrite list_elem_of_filter, elem_of_concat_fmap. split.
    + intros (Hs & t & [Hp Hin]%list_elem_of_filter & Hm). eauto 10.
    + intros (t & Hin & Hp & Hm & Hs). split; [done|].
      exists t. split; [by apply list_elem_of_filter|done].
  - intros Hnone. rewrite Hby. do 2 f_equal.
    rewrite (filter_none (λ t, name ∈ parser.Thread.people t)); [done|].
    by apply Forall_forall.
Qed.

Lemma parser_by_listed_threads_witness :
  parser.FbChat.by_ 3 fixtures.parsed "Ann"
  = Some (Ok [parser.Message.mk "hi" "Ann" fixtures.noon]).
Proof.
  assert (Hfuel : enough_fuel 3 fixtures.parsed).
  { split; [simpl; lia|]. intros t Ht. simpl in Ht.
    repeat (apply elem_of_cons in Ht as [->|Ht]); [..|by apply elem_of_nil in Ht];
      simpl; lia. }
  etrans; [exact (proj1 (parser_by_listed_threads 3 fixtures.parsed "Ann" Hfuel))|].
  vm_compute. reflexivity.
Defined.

(** The loop finds Ann's message of the first thread and passes over the one
    she sent in the thread that does not list her. *)
Example parser_by_passes_over_unlisted :
  parser.FbChat.by_ 3 fixtures.parsed "Ann"
  = Some (Ok [parser.Message.mk "hi" "Ann" fixtures.noon])
  ∧ parser.FbChat.by_ 2 fixtures.parsed "Ann" = None.
Proof. split; vm_compute; reflexivity. Qed.

(** X27. Given fuel for its loops, [sentBefore] and [sentAfter] return the
    messages of all threads sent strictly before and strictly after the
    date, thread after thread and unsorted; a message sent exactly at the
    date is in neither list, and every other message is in exactly one. *)
Theorem parser_date_filters (fuel : nat) (c : parser.FbChat.t) (date : datetime.datetime) :
  enough_fuel fuel c →
  parser.FbChat.sentBefore fuel c date
  = Some (Ok (filter (λ m, parser.Message.date_time m < date) (parser_messages c)))
  ∧ parser.FbChat.sentAfter fuel c date
    = Some (Ok (filter (λ m, date < parser.Message.date_time m) (parser_messages c)))
  ∧ parser_messages c
    ≡ₚ filter (λ m, parser.Message.date_time m < date) (parser_messages c)
       ++ filter (λ m, parser.Message.date_time m = date) (parser_messages c)
       ++ filter (λ m, date < parser.Message.date_time m) (parser_messages c).
Proof.
  intros [Hc Ht].
  assert (Hconcat : ∀ (P : parser.Message.t → Prop) `{!∀ m, Decision (P m)}
                      (l : list parser.Thread.t),
            concat ((λ t, filter P (parser.Thread.messages t)) <$> l)
            = filter P (concat (parser.Thread.messages <$> l))).
  { intros P HP l. induction l as [|t l IH]; [done|].
    cbn [fmap list_fmap concat]. by rewrite filter_app, IH. }
  unfold parser_messages. split_and!.
  - unfold parser.FbChat.sentBefore, parser.FbChat.__getitem__.
    rewrite iterate_list by done. cbn [outcome_bind]. rewrite <- Hconcat.
    apply collect_Ok. intros t Hin.
    unfold parser.Thread.sentBefore, parser.Thread.__getitem__.
    by rewrite iterate_list by by apply Ht.
  - unfold parser.FbChat.sentAfter, parser.FbChat.__getitem__.
    rewrite iterate_list by done. cbn [outcome_bind]. rewrite <- Hconcat.
    apply collect_Ok. intros t Hin.
    unfold parser.Thread.sentAfter, parser.Thread.__getitem__.
    rewrite iterate_list by by apply Ht. cbn [outcome_bind]. do 2 f_equal.
    apply list_filter_iff. intros m. lia.
  - apply three_way_perm. apply Forall_forall. intros m _. unfold one_of_three.
    destruct (Z.lt_trichotomy (parser.Message.date_time m) date) as [H|[H|H]]; lia.
Qed.

Lemma parser_date_filters_witness :
  parser.FbChat.sentBefore 3 fixtures.parsed fixtures.noon
  = Some (Ok [parser.Message.mk "lost" "Ann"
                (fixtures.noon - 60 * datetime.US_PER_SECOND)])
  ∧ parser.FbChat.sentAfter 3 fixtures.parsed fixtures.noon
    = Some (Ok [parser.Message.mk "hello" "Bob"
                  (fixtures.noon + 60 * datetime.US_PER_SECOND)]).
Proof.
  assert (Hfuel : enough_fuel 3 fixtures.parsed).
  { split; [simpl; lia|]. intros t Ht. simpl in Ht.
    repeat (apply elem_of_cons in Ht as [->|Ht]); [..|by apply elem_of_nil in Ht];
      simpl; lia. }
  destruct (parser_date_filters 3 fixtures.parsed fixtures.noon Hfuel) as (H1 & H2 & _).
  split; [exact H1|exact H2].
Defined.
